(** * Option-surface builder: a shallow embedding of [generate_option_mat.py]

    The numeric columns of the pandas frame hold IEEE doubles.  They are
    modelled as real numbers extended with the three special values a double
    can take ([inf], [-inf], [nan]); the rounding of the arithmetic, overflow
    and the sign of zero are left out.  The narrowing of the grid
    coordinates to singles ([astype(np.float32)]), which can merge two
    coordinates, is kept as the function [float32]; the narrowing of the
    stored field values only rounds them and is left out with the rest of
    the rounding.  The library entry points the builder calls ([norm.cdf],
    [brentq], [CloughTocher2DInterpolator], the narrowing) are not part of
    the repository: they are collected in the record [SciPy] and the general
    results hold for any behaviour of them, unless a hypothesis says
    otherwise; the results at concrete inputs are computed with the
    stand-ins defined below. *)

From Stdlib Require Import Reals Ranalysis5 Lra Lia String ZArith Bool List.
From Stdlib Require Import Sorting.Sorted Sorting.Permutation.
Import ListNotations.

Local Open Scope R_scope.

(** ** Floating values *)

Inductive fval : Type :=
| Num (x : R)
| PInf
| NInf
| NaN.

Declare Scope fval_scope.
Delimit Scope fval_scope with fv.
Bind Scope fval_scope with fval.

Definition isnan (v : fval) : bool :=
  match v with NaN => true | _ => false end.

Definition notna (v : fval) : bool := negb (isnan v).

Definition fval_eq_dec (a b : fval) : {a = b} + {a <> b}.
Proof.
  destruct a as [x| | |], b as [y| | |];
    try (left; reflexivity); try (right; discriminate).
  destruct (Req_dec_T x y) as [e|n].
  - left; now subst.
  - right; intros H; injection H; exact n.
Defined.

Definition fneg (a : fval) : fval :=
  match a with
  | Num x => Num (- x)
  | PInf => NInf
  | NInf => PInf
  | NaN => NaN
  end.

Definition fadd (a b : fval) : fval :=
  match a, b with
  | NaN, _ | _, NaN => NaN
  | Num x, Num y => Num (x + y)
  | PInf, NInf | NInf, PInf => NaN
  | PInf, _ | _, PInf => PInf
  | NInf, _ | _, NInf => NInf
  end.

Definition fsub (a b : fval) : fval := fadd a (fneg b).

(** The infinity whose sign is the sign of [x]; [nan] at zero. *)
Definition inf_signed (x : R) : fval :=
  if Rlt_dec 0 x then PInf else if Rlt_dec x 0 then NInf else NaN.

Definition fmul (a b : fval) : fval :=
  match a, b with
  | NaN, _ | _, NaN => NaN
  | Num x, Num y => Num (x * y)
  | PInf, Num y | Num y, PInf => inf_signed y
  | NInf, Num y | Num y, NInf => inf_signed (- y)
  | PInf, PInf | NInf, NInf => PInf
  | PInf, NInf | NInf, PInf => NaN
  end.

(** numpy division: a zero divisor gives an infinity, or [nan] for 0/0;
    nothing is raised. *)
Definition fdiv (a b : fval) : fval :=
  match a, b with
  | NaN, _ | _, NaN => NaN
  | Num x, Num y => if Req_dec_T y 0 then inf_signed x else Num (x / y)
  | Num _, (PInf | NInf) => Num 0
  | PInf, Num y => if Rlt_dec y 0 then NInf else PInf
  | NInf, Num y => if Rlt_dec y 0 then PInf else NInf
  | (PInf | NInf), (PInf | NInf) => NaN
  end.

(** [np.log] *)
Definition flog (a : fval) : fval :=
  match a with
  | Num x => if Rlt_dec 0 x then Num (ln x)
             else if Rlt_dec x 0 then NaN else NInf
  | PInf => PInf
  | NInf | NaN => NaN
  end.

(** [np.exp] *)
Definition fexp (a : fval) : fval :=
  match a with
  | Num x => Num (exp x)
  | PInf => PInf
  | NInf => Num 0
  | NaN => NaN
  end.

(** [np.sqrt] *)
Definition fsqrt (a : fval) : fval :=
  match a with
  | Num x => if Rlt_dec x 0 then NaN else Num (sqrt x)
  | PInf => PInf
  | NInf | NaN => NaN
  end.

(** [a > b] on doubles: false as soon as one side is [nan]. *)
Definition fgtb (a b : fval) : bool :=
  match a, b with
  | NaN, _ | _, NaN => false
  | Num x, Num y => if Rlt_dec y x then true else false
  | PInf, (Num _ | NInf) => true
  | Num _, NInf => true
  | _, _ => false
  end.

Notation "a + b" := (fadd a b) : fval_scope.
Notation "a - b" := (fsub a b) : fval_scope.
Notation "a * b" := (fmul a b) : fval_scope.
Notation "a / b" := (fdiv a b) : fval_scope.
Notation "- a" := (fneg a) : fval_scope.

(** ** Exceptions and results *)

(** The exceptions the pipeline can meet; all of them derive from Python's
    [Exception]. *)
Inductive exn : Type :=
| ValueError
| RuntimeError
| QhullError
| OtherError (msg : string).

Inductive result (A : Type) : Type :=
| Ok (a : A)
| Raise (e : exn).
Arguments Ok {A} a.
Arguments Raise {A} e.

Definition bind {A B : Type} (m : result A) (k : A -> result B) : result B :=
  match m with
  | Ok a => k a
  | Raise e => Raise e
  end.

Notation "x <- m ;; k" := (bind m (fun x => k))
  (at level 61, m at next level, right associativity).

(** ** The SciPy functions the builder calls *)

(** A fitted interpolant is a function of the two coordinates. *)
Definition surface : Type := fval -> fval -> fval.

Record SciPy : Type := {
  (** [scipy.stats.norm.cdf] on a finite argument *)
  norm_cdf : R -> R;
  (** [scipy.optimize.brentq f a b maxiter]: a root, or an exception *)
  brentq : (fval -> fval) -> fval -> fval -> nat -> result fval;
  (** [CloughTocher2DInterpolator points values]: the interpolant, or an
      exception of the triangulation *)
  CloughTocher2DInterpolator : list (fval * fval) -> list fval -> result surface;
  (** numpy's narrowing of a number to [np.float32]: the nearest single, an
      infinity on overflow *)
  float32 : R -> fval;
  (** zero is a single *)
  float32_zero : float32 0 = Num 0
}.

(** [astype(np.float32)] on a double: the special values are kept. *)
Definition astype_float32 (lib : SciPy) (v : fval) : fval :=
  match v with
  | Num x => float32 lib x
  | _ => v
  end.

Definition eps8 : R := 1 / 100000000.
Definition sigma_lo : R := 1 / 1000000.
Definition sigma_hi : R := 5.

Section Pricing.

Variable lib : SciPy.

(** [norm.cdf] on a double *)
Definition cdf (a : fval) : fval :=
  match a with
  | Num x => Num (norm_cdf lib x)
  | PInf => Num 1
  | NInf => Num 0
  | NaN => NaN
  end.

Definition CE : string := "CE".

(** The standardised moneyness term shared by the price and the delta;
    [sigma**2] is written as a product. *)
Definition d1_of (S K T r sigma : fval) : fval :=
  ((flog (S / K) + (r + Num (1/2) * (sigma * sigma)) * T)
     / (sigma * fsqrt T + Num eps8))%fv.

Definition black_scholes_price (S K T r sigma : fval) (option_type : string)
  : fval :=
  let d1 := d1_of S K T r sigma in
  let d2 := (d1 - sigma * fsqrt T)%fv in
  if String.eqb option_type CE
  then (S * cdf d1 - K * fexp (- r * T) * cdf d2)%fv
  else (K * fexp (- r * T) * cdf (- d2) - S * cdf (- d1))%fv.

Definition iv_objective (S K T r market_price : fval) (option_type : string)
  : fval -> fval :=
  fun sigma => (black_scholes_price S K T r sigma option_type - market_price)%fv.

(** [try: return brentq(...) except Exception: return np.nan] *)
Definition implied_volatility (S K T r market_price : fval)
    (option_type : string) : fval :=
  match brentq lib (iv_objective S K T r market_price option_type)
               (Num sigma_lo) (Num sigma_hi) 100 with
  | Ok root => root
  | Raise _ => NaN
  end.

Definition black_scholes_delta (S K T r sigma : fval) (option_type : string)
  : fval :=
  let d1 := d1_of S K T r sigma in
  if String.eqb option_type CE then cdf d1 else (- cdf (- d1))%fv.

End Pricing.

(** ** pandas and numpy helpers *)

Definition fillna (fill : fval) (v : fval) : fval :=
  if isnan v then fill else v.

Definition fillna0 (col : list fval) : list fval := map (fillna (Num 0)) col.

(** [Series.replace(0, np.nan)] *)
Definition replace0 (v : fval) : fval :=
  match v with
  | Num x => if Req_dec_T x 0 then NaN else v
  | _ => v
  end.

(** Total order used by [np.sort]: ascending, [nan] last. *)
Definition fleb (a b : fval) : bool :=
  match a, b with
  | _, NaN => true
  | NaN, _ => false
  | NInf, _ => true
  | _, NInf => false
  | _, PInf => true
  | PInf, _ => false
  | Num x, Num y => if Rle_dec x y then true else false
  end.

Section Sort.
Context {A : Type} (leb : A -> A -> bool).

Fixpoint insert_sorted (a : A) (l : list A) : list A :=
  match l with
  | [] => [a]
  | b :: t => if leb a b then a :: l else b :: insert_sorted a t
  end.

(** Stable insertion sort: an element goes in front of the first one it does
    not exceed, and the list is consumed from the right. *)
Definition sort_by (l : list A) : list A := fold_right insert_sorted [] l.

End Sort.

Definition np_sort : list fval -> list fval := sort_by fleb.

(** [Series.unique]: first occurrences, in order of appearance; all the
    [nan] count as one value. *)
Fixpoint unique (l : list fval) : list fval :=
  match l with
  | [] => []
  | x :: t => x :: remove fval_eq_dec x (unique t)
  end.

(** [Series.max], which skips [nan]; [nan] when nothing is left. *)
Definition fmax2 (a b : fval) : fval :=
  match a, b with
  | NaN, _ => b
  | _, NaN => a
  | _, _ => if fleb a b then b else a
  end.

Definition series_max (col : list fval) : fval := fold_right fmax2 NaN col.

(** [Series.shift(1)] *)
Definition shift1 (col : list fval) : list fval :=
  match col with
  | [] => []
  | _ => NaN :: removelast col
  end.

(** [Series.pct_change]: [x / x.shift(1) - 1]. *)
Definition pct_change (col : list fval) : list fval :=
  map (fun p => (fst p / snd p - Num 1)%fv) (combine col (shift1 col)).

(** The finite entries of a window; rolling aggregations read infinities as
    missing. *)
Fixpoint finite_window (w : list fval) : option (list R) :=
  match w with
  | [] => Some []
  | Num x :: t => option_map (cons x) (finite_window t)
  | _ :: _ => None
  end.

Definition Rsum (l : list R) : R := fold_right Rplus 0 l.

Definition mean (l : list R) : R := Rsum l / INR (length l).

(** Sample standard deviation ([ddof = 1]). *)
Definition sample_std (l : list R) : R :=
  let m := mean l in
  sqrt (Rsum (map (fun x => (x - m) * (x - m)) l) / INR (length l - 1)).

(** [Series.rolling(window).agg()] with [min_periods = window]: position [i]
    aggregates the [window] entries ending at [i], and is [nan] when fewer
    are available or one of them is not finite. *)
Definition rolling (window : nat) (agg : list R -> R) (col : list fval)
  : list fval :=
  map (fun i =>
         if (S i <? window)%nat then NaN
         else match finite_window (firstn window (skipn (S i - window) col)) with
              | Some xs => Num (agg xs)
              | None => NaN
              end)
      (seq 0 (length col)).

Definition compute_entropy (signal : list fval) (window : nat) : list fval :=
  map (fun s => flog (Num 1 + s)%fv) (fillna0 (rolling window sample_std signal)).

(** [Series.quantile(q)] with [q = pct/100] and linear interpolation between
    the two order statistics around position [(n-1) q]; [nan] is skipped. *)
Definition quantile_pct (pct : nat) (col : list fval) : fval :=
  let s := np_sort (filter notna col) in
  match s with
  | [] => NaN
  | _ =>
      let h := ((length s - 1) * pct)%nat in
      let lo := nth (h / 100) s NaN in
      let hi := nth (Nat.min (S (h / 100)) (length s - 1)) s NaN in
      (lo + (hi - lo) * Num (INR (h mod 100) / 100))%fv
  end.

(** [(cond).astype(int)] *)
Definition as_int (b : bool) : fval := if b then Num 1 else Num 0.

Section Zip.
Context {A B C : Type} (f : A -> B -> C).

Fixpoint zip_with (l : list A) (m : list B) : list C :=
  match l, m with
  | a :: l', b :: m' => f a b :: zip_with l' m'
  | _, _ => []
  end.

End Zip.

(** [Series.fillna(method='ffill')] *)
Fixpoint ffill_from (prev : fval) (col : list fval) : list fval :=
  match col with
  | [] => []
  | v :: t => let v' := fillna prev v in v' :: ffill_from v' t
  end.

Definition ffill : list fval -> list fval := ffill_from NaN.

(** ** Input tables *)

(** One row of the option file after [read_csv] and the coercions
    ([pd.to_numeric], [pd.to_datetime] with [errors='coerce']): a cell that
    does not parse is [nan], a timestamp that does not parse is [None]
    (pandas' NaT).  Timestamps are counted in nanoseconds. *)
Record Quote : Type := {
  Timestamp : option Z;
  StrikePrice : fval;
  LTP : fval;
  BuyPrice : fval;
  OpenInterest : fval;
  DTE : fval;
  OptionsType : string;
  (** the cell of the [IV] column, read only when the file has that column *)
  IV_cell : fval
}.

Record OptFile : Type := {
  opt_rows : list Quote;
  (** ['IV' in df.columns] *)
  has_IV_column : bool
}.

Record EqtRow : Type := {
  eqt_Timestamp : option Z;
  eqt_LTP : fval
}.

(** A cleaned quote with its spot. *)
Record Row : Type := {
  quote :> Quote;
  Spot : fval
}.

Definition has_timestamp (q : Quote) : bool :=
  match Timestamp q with Some _ => true | None => false end.

Definition ts_of (o : option Z) : Z :=
  match o with Some t => t | None => 0%Z end.

(** ** Stages of [create_options_mat] *)

(** [dropna(subset=['LTP','StrikePrice'])], then [dropna(subset=['Timestamp'])];
    the rows keep the order of the file. *)
Definition load_and_clean (rows : list Quote) : list Quote :=
  filter has_timestamp
    (filter (fun q => notna (LTP q) && notna (StrikePrice q)) rows).

Definition sort_values_Timestamp (df : list Quote) : list Quote :=
  sort_by (fun a b => (ts_of (Timestamp a) <=? ts_of (Timestamp b))%Z) df.

(** Backward as-of lookup in a series sorted by time: the value of the last
    entry at or before [t], [nan] when there is none. *)
Definition asof_backward (right : list (Z * fval)) (t : Z) : fval :=
  fold_left (fun acc e => if (fst e <=? t)%Z then snd e else acc) right NaN.

(** [pd.merge_asof(df.sort_values('Timestamp'), eqt.sort_values('Timestamp'),
    on='Timestamp')] followed by the forward fill of [Spot]; a NaT among the
    keys of the right table makes [merge_asof] raise. *)
Definition merge_asof_spot (df : list Quote) (eqt : list EqtRow)
  : result (list Row) :=
  if forallb (fun e => match eqt_Timestamp e with Some _ => true | None => false end) eqt
  then
    let right :=
      sort_by (fun a b => (fst a <=? fst b)%Z)
              (map (fun e => (ts_of (eqt_Timestamp e), eqt_LTP e)) eqt) in
    let left := sort_values_Timestamp df in
    let spot := ffill (map (fun q => asof_backward right (ts_of (Timestamp q))) left) in
    Ok (zip_with Build_Row left spot)
  else Raise ValueError.

(** The optional merge with the equity file; without it the strike stands in
    for the spot and the rows are left as they are. *)
Definition align_spot (df : list Quote) (eqt_file : option (list EqtRow))
  : result (list Row) :=
  match eqt_file with
  | Some eqt => merge_asof_spot df eqt
  | None => Ok (map (fun q => Build_Row q (StrikePrice q)) df)
  end.

Definition log_moneyness_of (df : list Row) : list fval :=
  map (fun r : Row => flog (StrikePrice r / replace0 (Spot r))%fv) df.

(** [df['DTE'] / df['DTE'].max()] *)
Definition t_normalized_of (dte : list fval) : list fval :=
  let m := series_max dte in map (fun d => (d / m)%fv) dte.

(** [df.duplicated(subset=['Timestamp'])]: true from the second occurrence
    on. *)
Fixpoint duplicated_from (seen : list Z) (ts : list Z) : list bool :=
  match ts with
  | [] => []
  | t :: rest => existsb (Z.eqb t) seen :: duplicated_from (t :: seen) rest
  end.

Definition duplicated (ts : list Z) : list bool := duplicated_from [] ts.

Section Pipeline.

Variable lib : SciPy.

Definition solve_row (r : Row) : fval :=
  implied_volatility lib (Spot r) (StrikePrice r) (DTE r / Num 365)%fv
                     (Num (5/100)) (LTP r) (OptionsType r).

(** [if 'IV' not in df.columns: df['IV'] = df.apply(...)].  The second
    component lists the rows handed to [implied_volatility]. *)
Definition compute_iv (has_IV : bool) (df : list Row) : list fval * list Row :=
  if has_IV then (map (fun r : Row => IV_cell r) df, [])
  else (map solve_row df, df).

(** The rows of [df[[log_moneyness, t_normalized, field]].dropna()]. *)
Definition valid_points (lm tn field : list fval) : list ((fval * fval) * fval) :=
  filter (fun p => notna (fst (fst p)) && notna (snd (fst p)) && notna (snd p))
         (combine (combine lm tn) field).

(** The fill of the missing volatilities. *)
Definition fill_missing_iv (lm tn iv : list fval) : result (list fval) :=
  let iv_valid := valid_points lm tn iv in
  if (0 <? length iv_valid)%nat then
    iv_interp <- CloughTocher2DInterpolator lib (map fst iv_valid) (map snd iv_valid) ;;
    let IV_fitted := zip_with iv_interp lm tn in
    Ok (zip_with (fun v fit => fillna fit v) iv IV_fitted)
  else Ok iv.

(** [np.meshgrid(x_grid, t_grid)]: two [Nt] by [Nx] arrays. *)
Definition meshgrid (x_grid t_grid : list fval)
  : list (list fval) * list (list fval) :=
  (map (fun _ => x_grid) t_grid,
   map (fun t => map (fun _ => t) x_grid) t_grid).

(** The nested function [interpolate]: no guard and no handler around the
    fit. *)
Definition interpolate (lm tn : list fval) (grid_x grid_t : list (list fval))
    (field : list fval) : result (list (list fval)) :=
  let d := valid_points lm tn field in
  f <- CloughTocher2DInterpolator lib (map fst d) (map snd d) ;;
  Ok (zip_with (zip_with f) grid_x grid_t).

End Pipeline.

(** ** Complex values and the output container *)

Record complex : Type := { re : fval; im : fval }.

Definition of_real (a : fval) : complex := {| re := a; im := Num 0 |}.

(** The imaginary unit [1j]. *)
Definition j1 : complex := {| re := Num 0; im := Num 1 |}.

Definition cadd (a b : complex) : complex :=
  {| re := (re a + re b)%fv; im := (im a + im b)%fv |}.

Definition cmul (a b : complex) : complex :=
  {| re := (re a * re b - im a * im b)%fv;
     im := (re a * im b + im a * re b)%fv |}.

(** One cell of [uu_re + 1j * uu_im]; the real operands are promoted to
    complex numbers first. *)
Definition uu_cell (uu_re uu_im : fval) : complex :=
  cadd (of_real uu_re) (cmul j1 (of_real uu_im)).

(** One cell of [(uu_re > 0).astype(np.float32)]. *)
Definition mask_cell (uu_re : fval) : fval := as_int (fgtb uu_re (Num 0)).

Module Mat.

(** The dictionary handed to [savemat]. *)
Record t : Type := {
  x : list fval;
  tt : list fval;
  uu : list (list complex);
  features : list (list (list fval));
  mask : list (list fval);
  symbol : string;
  expiry : string
}.

End Mat.

(** [np.stack(fields, axis=-1)] for [Nt] by [Nx] fields. *)
Definition stack_last (Nt Nx : nat) (fields : list (list (list fval)))
  : list (list (list fval)) :=
  map (fun i =>
         map (fun k => map (fun f => nth k (nth i f []) NaN) fields) (seq 0 Nx))
      (seq 0 Nt).

(** [df['Return'] = df['LTP'].pct_change().fillna(0)] *)
Definition Return_of (df : list Row) : list fval :=
  fillna0 (pct_change (map (fun r : Row => LTP r) df)).

(** [df['Entropy'] = compute_entropy(df['LTP'])], with the default window. *)
Definition Entropy_of (df : list Row) : list fval :=
  compute_entropy (map (fun r : Row => LTP r) df) 5.

Section Builder.

Variable lib : SciPy.

Definition create_options_mat (opt_file : OptFile) (expiry : string)
    (eqt_file : option (list EqtRow)) : result Mat.t :=
  let df0 := load_and_clean (opt_rows opt_file) in
  df <- align_spot df0 eqt_file ;;
  let log_moneyness := log_moneyness_of df in
  let t_normalized := t_normalized_of (map (fun r : Row => DTE r) df) in
  let ltp := map (fun r : Row => LTP r) df in
  let Return := Return_of df in
  let ImPsi := fillna0 (rolling 3 mean Return) in
  let Entropy := Entropy_of df in
  let VolShock :=
    let q := quantile_pct 85 Entropy in
    map (fun e => as_int (fgtb e q)) Entropy in
  let OpenGap :=
    map (fun r : Row => as_int (fgtb (LTP r - BuyPrice r)%fv (Num 5))) df in
  let EventDay :=
    map as_int (duplicated (map (fun r : Row => ts_of (Timestamp r)) df)) in
  let IV0 := fst (compute_iv lib (has_IV_column opt_file) df) in
  IV <- fill_missing_iv lib log_moneyness t_normalized IV0 ;;
  let Delta :=
    zip_with (fun (r : Row) iv =>
                black_scholes_delta lib (Spot r) (StrikePrice r)
                  (DTE r / Num 365)%fv (Num (5/100)) iv (OptionsType r))
             df IV in
  let x_grid := np_sort (unique log_moneyness) in
  let t_grid := np_sort (unique t_normalized) in
  let (grid_x, grid_t) := meshgrid x_grid t_grid in
  let interp := interpolate lib log_moneyness t_normalized grid_x grid_t in
  uu_re <- interp ltp ;;
  uu_im <- interp ImPsi ;;
  let uu := zip_with (zip_with uu_cell) uu_re uu_im in
  f_oi <- interp (map (fun r : Row => OpenInterest r) df) ;;
  f_delta <- interp Delta ;;
  f_entropy <- interp Entropy ;;
  f_shock <- interp VolShock ;;
  f_gap <- interp OpenGap ;;
  f_event <- interp EventDay ;;
  f_iv <- interp IV ;;
  let features :=
    stack_last (length t_grid) (length x_grid)
               [f_oi; f_delta; f_entropy; f_shock; f_gap; f_event; f_iv] in
  let mask := map (map mask_cell) uu_re in
  Ok {| Mat.x := map (astype_float32 lib) x_grid;
        Mat.tt := map (astype_float32 lib) t_grid;
        Mat.uu := uu;
        Mat.features := features;
        Mat.mask := mask;
        Mat.symbol := "RELIANCE";
        Mat.expiry := expiry |}.

End Builder.

(** ** Properties stated about the builder *)

(** The round trip at one input: the solver applied to the price computed at
    volatility [sigma] returns a number within [1e-4] of [sigma]. *)
Definition round_trip_at (lib : SciPy) (S K T r sigma : R) (side : string)
  : Prop :=
  exists v : R,
    implied_volatility lib (Num S) (Num K) (Num T) (Num r)
      (black_scholes_price lib (Num S) (Num K) (Num T) (Num r) (Num sigma) side)
      side = Num v
    /\ Rabs (v - sigma) <= 1 / 10000.

(** The per-quote reading of the solver stage: every quote whose volatility
    is missing is handed to the solver. *)
Definition solved_per_quote (lib : SciPy) (has_IV : bool) (df : list Row)
  : Prop :=
  forall r : Row,
    In r df -> isnan (IV_cell r) = true ->
    In r (snd (compute_iv lib has_IV df)).

(** The entropy the specification describes: the rolling standard deviation
    is taken over the return series. *)
Definition entropy_of_returns (df : list Row) : list fval :=
  compute_entropy (Return_of df) 5.

Definition time_ordered (df : list Row) : Prop :=
  StronglySorted
    (fun a b : Row => (ts_of (Timestamp a) <= ts_of (Timestamp b))%Z) df.

(** Entry [(i, k)] of a two-dimensional array. *)
Definition cell {A : Type} (m : list (list A)) (i k : nat) : option A :=
  match nth_error m i with
  | Some row => nth_error row k
  | None => None
  end.

(** [a < b] on doubles. *)
Definition fltb (a b : fval) : bool := fgtb b a.

(** Each entry is smaller than all the later ones. *)
Definition strictly_increasing (l : list fval) : Prop :=
  StronglySorted (fun a b => fltb a b = true) l.

(** [n] is the number of distinct values of [l]: every duplicate-free
    enumeration of the values of [l] has [n] entries. *)
Definition distinct_count (l : list fval) (n : nat) : Prop :=
  forall d : list fval,
    NoDup d -> (forall v, In v d <-> In v l) -> length d = n.

(** ** Stand-ins for SciPy *)

(** Used to instantiate results at concrete inputs: the identity for the
    distribution function, a root finder that answers [1/2], and an
    interpolator that raises when it is given no point (as the triangulation
    of an empty point set does) and otherwise answers the constant surface
    through its first value. *)
Definition sample_lib : SciPy := {|
  norm_cdf := fun x => x;
  brentq := fun _ _ _ _ => Ok (Num (1/2));
  CloughTocher2DInterpolator := fun _ values =>
    match values with
    | [] => Raise ValueError
    | v :: _ => Ok (fun _ _ => v)
    end;
  float32 := Num;
  float32_zero := eq_refl
|}.

(** The same with an interpolator that accepts any point set and is [nan]
    everywhere. *)
Definition lenient_lib : SciPy := {|
  norm_cdf := fun x => x;
  brentq := fun _ _ _ _ => Ok (Num (1/2));
  CloughTocher2DInterpolator := fun _ _ => Ok (fun _ _ => NaN);
  float32 := Num;
  float32_zero := eq_refl
|}.

(** A stand-in whose distribution function is symmetric and stays in
    [0, 1]: the constant 1/2. *)
Definition half_lib : SciPy := {|
  norm_cdf := fun _ => 1 / 2;
  brentq := fun _ _ _ _ => Ok (Num (1/2));
  CloughTocher2DInterpolator := fun _ values =>
    match values with
    | [] => Raise ValueError
    | v :: _ => Ok (fun _ _ => v)
    end;
  float32 := Num;
  float32_zero := eq_refl
|}.

(** ** Sample inputs *)

(** A call quote whose buy price is its last price. *)
Definition mk_quote (ts : Z) (strike ltp oi dte iv : fval) : Quote := {|
  Timestamp := Some ts;
  StrikePrice := strike;
  LTP := ltp;
  BuyPrice := ltp;
  OpenInterest := oi;
  DTE := dte;
  OptionsType := "CE";
  IV_cell := iv
|}.

(** A file of one quote, without an [IV] column. *)
Definition one_quote_file : OptFile := {|
  opt_rows := [mk_quote 1 (Num 100) (Num 10) (Num 50) (Num 30) NaN];
  has_IV_column := false
|}.

(** The row of [one_quote_file] after cleaning, with the strike as spot. *)
Definition one_quote_rows : list Row :=
  map (fun q => Build_Row q (StrikePrice q)) (opt_rows one_quote_file).

(** Two quotes of a file that has an [IV] column: the first carries a
    volatility, the second does not. *)
Definition mixed_iv_rows : list Row :=
  [ Build_Row (mk_quote 1 (Num 100) (Num 10) (Num 50) (Num 30) (Num (1/5)))
              (Num 100);
    Build_Row (mk_quote 2 (Num 100) (Num 11) (Num 50) (Num 30) NaN)
              (Num 100) ].

(** Two quotes on the expiry day: every days-to-expiry is zero. *)
Definition zero_dte_file : OptFile := {|
  opt_rows := [mk_quote 1 (Num 100) (Num 10) (Num 50) (Num 0) NaN;
               mk_quote 2 (Num 100) (Num 11) (Num 50) (Num 0) NaN];
  has_IV_column := false
|}.

(** The rows of [zero_dte_file] after cleaning, with the strike as spot. *)
Definition zero_dte_rows : list Row :=
  map (fun q => Build_Row q (StrikePrice q)) (opt_rows zero_dte_file).

(** Two quotes listed latest first. *)
Definition unsorted_file : OptFile := {|
  opt_rows := [mk_quote 2 (Num 100) (Num 10) (Num 50) (Num 30) NaN;
               mk_quote 1 (Num 100) (Num 11) (Num 50) (Num 30) NaN];
  has_IV_column := false
|}.

(** Quotes at the given last prices, in this order. *)
Definition rows_at_prices (prices : list R) : list Row :=
  map (fun p => Build_Row (mk_quote 1 (Num 100) (Num p) (Num 50) (Num 30) NaN)
                          (Num 100))
      prices.

(** ** Shapes *)

(** An array of [nt] rows of [nx] entries. *)
Definition has_shape {A : Type} (m : list (list A)) (nt nx : nat) : Prop :=
  length m = nt /\ Forall (fun row => length row = nx) m.

(** ** Sample equity file *)

(** Two equity ticks, at times 0 and 2. *)
Definition sample_eqt : list EqtRow :=
  [ {| eqt_Timestamp := Some 0%Z; eqt_LTP := Num 100 |};
    {| eqt_Timestamp := Some 2%Z; eqt_LTP := Num 101 |} ].

(** ** Named feature columns

    The columns [create_options_mat] binds on its way, as functions of the
    aligned rows. *)

(** [df['ImPsi'] = df['Return'].rolling(3).mean().fillna(0)] *)
Definition ImPsi_of (df : list Row) : list fval :=
  fillna0 (rolling 3 mean (Return_of df)).

(** [df['VolShock'] = (df['Entropy'] > df['Entropy'].quantile(0.85)).astype(int)] *)
Definition VolShock_of (df : list Row) : list fval :=
  let q := quantile_pct 85 (Entropy_of df) in
  map (fun e => as_int (fgtb e q)) (Entropy_of df).

(** [df['OpenGap'] = ((df['LTP'] - df['BuyPrice']) > 5).astype(int)] *)
Definition OpenGap_of (df : list Row) : list fval :=
  map (fun r : Row => as_int (fgtb (LTP r - BuyPrice r)%fv (Num 5))) df.

(** [df['EventDay'] = df.duplicated(subset=['Timestamp']).astype(int)] *)
Definition EventDay_of (df : list Row) : list fval :=
  map as_int (duplicated (map (fun r : Row => ts_of (Timestamp r)) df)).

(** ** The equity builder ([generate_equity_mat.py]) *)

(** One row of the equity file after [read_csv] and [pd.to_datetime] with
    [errors='coerce']. *)
Record Tick : Type := {
  tick_Timestamp : option Z;
  tick_LTP : fval;
  tick_BuyPrice : fval
}.

(** Order of [sort_values] on timestamps: ascending, NaT last. *)
Definition ts_leb (a b : option Z) : bool :=
  match a, b with
  | _, None => true
  | None, Some _ => false
  | Some s, Some t => (s <=? t)%Z
  end.

(** [dropna(subset=['LTP','BuyPrice'])], then
    [sort_values('Timestamp').dropna(subset=['Timestamp'])]. *)
Definition equity_clean (rows : list Tick) : list Tick :=
  filter (fun t => match tick_Timestamp t with Some _ => true | None => false end)
    (sort_by (fun a b => ts_leb (tick_Timestamp a) (tick_Timestamp b))
       (filter (fun t => notna (tick_LTP t) && notna (tick_BuyPrice t)) rows)).

(** [np.linspace(0, 1, n)] *)
Definition linspace01 (n : nat) : list fval :=
  match n with
  | O => []
  | S O => [Num 0]
  | _ => map (fun i => Num (INR i / INR (n - 1))) (seq 0 n)
  end.

(** The finite entries of a window. *)
Definition finite_entries (w : list fval) : list R :=
  flat_map (fun v => match v with Num x => [x] | _ => [] end) w.

(** [Series.rolling(window, min_periods=1).agg()]: position [i] aggregates
    the finite entries among the last [window] ones; [need] is the number
    of observations the aggregate asks for (1 for the mean, 2 for the
    sample standard deviation), below which the result is [nan]. *)
Definition rolling_min1 (window need : nat) (agg : list R -> R)
    (col : list fval) : list fval :=
  map (fun i =>
         let xs := finite_entries
                     (firstn (Nat.min window (S i)) (skipn (S i - window) col)) in
         if (length xs <? need)%nat then NaN else Num (agg xs))
      (seq 0 (length col)).

(** [df['Return'] = df['LTP'].pct_change().rolling(5, min_periods=1).mean()] *)
Definition equity_Return (df : list Tick) : list fval :=
  rolling_min1 5 1 mean (pct_change (map tick_LTP df)).

(** [df['Entropy'] = np.log1p(df['Return'].rolling(5, min_periods=1).std())] *)
Definition equity_Entropy (df : list Tick) : list fval :=
  map (fun s => flog (Num 1 + s)%fv) (rolling_min1 5 2 sample_std (equity_Return df)).

Definition equity_VolShock (df : list Tick) : list fval :=
  let q := quantile_pct 85 (equity_Entropy df) in
  map (fun e => as_int (fgtb e q)) (equity_Entropy df).

Definition equity_OpenGap (df : list Tick) : list fval :=
  map (fun t => as_int (fgtb (tick_LTP t - tick_BuyPrice t)%fv (Num 5))) df.

Definition equity_EventDay (df : list Tick) : list fval :=
  map as_int (duplicated (map (fun t => ts_of (tick_Timestamp t)) df)).

(** [v.reshape(Nt, 1).repeat(Nx, axis=1)]: each entry becomes a row of [Nx]
    copies. *)
Definition repeat_columns {A : Type} (Nx : nat) (v : list A) : list (list A) :=
  map (fun a => repeat a Nx) v.

Definition create_equity_mat (input_file : list Tick) (expiry_str : string)
    (underlying_symbol : string) : Mat.t :=
  let df := equity_clean input_file in
  let x_vals := map (fun t => flog (tick_LTP t)) df in
  let Nx := length x_vals in
  let t_vals := linspace01 Nx in
  let uu_re := map tick_LTP df in
  let uu_im := fillna0 (equity_Return df) in
  let uu := repeat_columns Nx (zip_with uu_cell uu_re uu_im) in
  let features_matrix :=
    zip_with (fun e rest => e :: rest)
      (fillna0 (equity_Entropy df))
      (zip_with (fun d rest => d :: rest) (equity_EventDay df)
         (zip_with (fun g s => [g; s]) (equity_OpenGap df) (equity_VolShock df))) in
  let features_tensor := repeat_columns Nx features_matrix in
  let mask :=
    repeat_columns Nx
      (map (fun t => mask_cell (fillna (Num 0) (tick_LTP t))) df) in
  {| Mat.x := x_vals;
     Mat.tt := t_vals;
     Mat.uu := uu;
     Mat.features := features_tensor;
     Mat.mask := mask;
     Mat.symbol := underlying_symbol;
     Mat.expiry := expiry_str |}.

(** The default of the parameter [underlying_symbol]. *)
Definition default_symbol : string := "RELIANCE".

(** Three equity ticks listed out of order, the middle one without a
    timestamp. *)
Definition sample_ticks : list Tick :=
  [ {| tick_Timestamp := Some 3%Z; tick_LTP := Num 102; tick_BuyPrice := Num 101 |};
    {| tick_Timestamp := None; tick_LTP := Num 100; tick_BuyPrice := Num 100 |};
    {| tick_Timestamp := Some 1%Z; tick_LTP := Num 100; tick_BuyPrice := Num 90 |} ].

(** A tick has its two prices and a timestamp. *)
Definition tick_usable (t : Tick) : bool :=
  notna (tick_LTP t) && notna (tick_BuyPrice t)
  && match tick_Timestamp t with Some _ => true | None => false end.

(** Each tick is stamped no later than all the ticks after it. *)
Definition ticks_time_ordered (l : list Tick) : Prop :=
  StronglySorted
    (fun a b => exists s t : Z,
         tick_Timestamp a = Some s /\ tick_Timestamp b = Some t /\ (s <= t)%Z)
    l.

(** The ticks with both prices multiplied by [c]. *)
Definition scale_ticks (c : R) (l : list Tick) : list Tick :=
  map (fun t => {| tick_Timestamp := tick_Timestamp t;
                   tick_LTP := (Num c * tick_LTP t)%fv;
                   tick_BuyPrice := (Num c * tick_BuyPrice t)%fv |})
      l.

(** ** The driver ([generate_all_mat_files.py]) *)

(** The list of expiry dates of the script. *)
Definition expiries : list string := ["20250529"%string].

Definition eqt_file_name (expiry : string) : string :=
  ("EQT_RELIANCE_" ++ expiry ++ ".csv")%string.

Definition eqt_mat_name (expiry : string) : string :=
  ("EQT_PINN_TRAIN_DATA_" ++ expiry ++ ".mat")%string.

(** One turn of the loop.  [files] maps a file name to the table [read_csv]
    would return, or to [None] when the file is missing; the call of the
    option builder is disabled in the source, only the equity builder runs,
    with the default symbol. *)
Definition process_expiry (files : string -> option (list Tick))
    (expiry : string) : result (string * Mat.t) :=
  match files (eqt_file_name expiry) with
  | Some ticks =>
      Ok (eqt_mat_name expiry, create_equity_mat ticks expiry default_symbol)
  | None => Raise (OtherError "FileNotFoundError")
  end.

(** The loop: the files written so far, and the exception that stopped it,
    if any. *)
Fixpoint generate_all (files : string -> option (list Tick))
    (todo : list string) : list (string * Mat.t) * option exn :=
  match todo with
  | [] => ([], None)
  | expiry :: rest =>
      match process_expiry files expiry with
      | Raise e => ([], Some e)
      | Ok written =>
          let (more, outcome) := generate_all files rest in
          (written :: more, outcome)
      end
  end.

(** A directory that holds the equity file of the script's expiry. *)
Definition sample_files (name : string) : option (list Tick) :=
  if String.eqb name "EQT_RELIANCE_20250529.csv" then Some sample_ticks
  else None.

(** ** Inputs and properties for the grid, the mask and thin fields *)

(** One equity tick at time 2. *)
Definition late_eqt : list EqtRow :=
  [ {| eqt_Timestamp := Some 2%Z; eqt_LTP := Num 101 |} ].

(** One equity tick at time 0, earlier than every sample quote. *)
Definition flat_eqt : list EqtRow :=
  [ {| eqt_Timestamp := Some 0%Z; eqt_LTP := Num 100 |} ].

(** Four quotes on the corners of a rectangle of the (log-moneyness, time)
    plane: strikes 90 and 110, 15 and 30 days from expiry. *)
Definition rectangle_file : OptFile := {|
  opt_rows := [mk_quote 1 (Num 90) (Num 12) (Num 50) (Num 15) NaN;
               mk_quote 2 (Num 110) (Num 3) (Num 50) (Num 15) NaN;
               mk_quote 3 (Num 90) (Num 14) (Num 50) (Num 30) NaN;
               mk_quote 4 (Num 110) (Num 5) (Num 50) (Num 30) NaN];
  has_IV_column := false
|}.

(** The rows of [rectangle_file] after the merge with [flat_eqt]. *)
Definition rectangle_rows : list Row :=
  map (fun q => Build_Row q (Num 100)) (opt_rows rectangle_file).

(** The same four quotes stamped 2 to 5, and a fifth one stamped 1, listed
    last. *)
Definition early_quote_file : OptFile := {|
  opt_rows := [mk_quote 2 (Num 90) (Num 12) (Num 50) (Num 15) NaN;
               mk_quote 3 (Num 110) (Num 3) (Num 50) (Num 15) NaN;
               mk_quote 4 (Num 90) (Num 14) (Num 50) (Num 30) NaN;
               mk_quote 5 (Num 110) (Num 5) (Num 50) (Num 30) NaN;
               mk_quote 1 (Num 100) (Num 7) (Num 50) (Num 30) NaN];
  has_IV_column := false
|}.

(** The rows of [early_quote_file] after the merge with [late_eqt]: the
    quote stamped 1 comes first and has no spot. *)
Definition early_quote_rows : list Row :=
  [ Build_Row (mk_quote 1 (Num 100) (Num 7) (Num 50) (Num 30) NaN) NaN;
    Build_Row (mk_quote 2 (Num 90) (Num 12) (Num 50) (Num 15) NaN) (Num 101);
    Build_Row (mk_quote 3 (Num 110) (Num 3) (Num 50) (Num 15) NaN) (Num 101);
    Build_Row (mk_quote 4 (Num 90) (Num 14) (Num 50) (Num 30) NaN) (Num 101);
    Build_Row (mk_quote 5 (Num 110) (Num 5) (Num 50) (Num 30) NaN) (Num 101) ].

(** A stand-in interpolator that accepts any point set and is constant: the
    first value, [nan] when there is none. *)
Definition flat_lib : SciPy := {|
  norm_cdf := fun x => x;
  brentq := fun _ _ _ _ => Ok (Num (1/2));
  CloughTocher2DInterpolator := fun _ vals => Ok (fun _ _ => hd NaN vals);
  float32 := Num;
  float32_zero := eq_refl
|}.

(** Four quotes on the corners of a rectangle of the (log-moneyness, time)
    plane, none of which has a parsable open interest. *)
Definition thin_oi_file : OptFile := {|
  opt_rows := [mk_quote 1 (Num 90) (Num 12) NaN (Num 15) NaN;
               mk_quote 2 (Num 110) (Num 3) NaN (Num 15) NaN;
               mk_quote 3 (Num 90) (Num 14) NaN (Num 30) NaN;
               mk_quote 4 (Num 110) (Num 5) NaN (Num 30) NaN];
  has_IV_column := false
|}.

(** The rows of [thin_oi_file] after the merge with [flat_eqt]. *)
Definition thin_oi_rows : list Row :=
  map (fun q => Build_Row q (Num 100)) (opt_rows thin_oi_file).

(** What the triangulation behind the interpolator guarantees: where an
    interpolant is defined (not [nan]), every interpolant fitted on the same
    points, one finite value per point, is a number. *)
Definition hull_consistent (lib : SciPy) : Prop :=
  forall (pts : list (fval * fval)) (v1 v2 : list fval) (f1 f2 : surface)
         (x t : fval),
    length v1 = length pts -> length v2 = length pts ->
    CloughTocher2DInterpolator lib pts v1 = Ok f1 ->
    CloughTocher2DInterpolator lib pts v2 = Ok f2 ->
    Forall (fun v => exists y, v = Num y) v2 ->
    f1 x t <> NaN ->
    exists y, f2 x t = Num y.

(** The narrowing keeps the order of the entries of [l] strict. *)
Definition keeps_order (lib : SciPy) (l : list fval) : Prop :=
  forall a b : fval,
    In a l -> In b l -> fltb a b = true ->
    fltb (astype_float32 lib a) (astype_float32 lib b) = true.

(** ** The round trip through the solver *)

(** The value of [d1_of] when all its arguments are numbers. *)
Definition d1_on_reals (S K T r sigma : R) : R :=
  (ln (S / K) + (r + 1/2 * (sigma * sigma)) * T) / (sigma * sqrt T + eps8).

(** The value of [black_scholes_price] when all its arguments are numbers,
    spot and strike are positive and the time and the volatility are not
    negative (lemma [black_scholes_price_on_reals]). *)
Definition price_on_reals (lib : SciPy) (S K T r sigma : R) (side : string)
  : R :=
  let d1 := d1_on_reals S K T r sigma in
  let d2 := d1 - sigma * sqrt T in
  if String.eqb side CE
  then S * norm_cdf lib d1 - K * exp (- r * T) * norm_cdf lib d2
  else K * exp (- r * T) * norm_cdf lib (- d2) - S * norm_cdf lib (- d1).

(** A bound on the distance between the answer of [brentq] and a zero, from
    its default tolerances ([xtol = 2e-12], [rtol] about [9e-16]) on a
    bracket inside [0, 5]. *)
Definition root_tol : R := 1 / 100000000000.

(** What [brentq] is documented to do on the bracket and with the iteration
    budget the solver passes: for an objective that is continuous on the
    bracket and takes values of opposite signs at its ends, it answers a
    number within the tolerance of a zero of the objective lying in the
    bracket. *)
Definition brentq_contract (lib : SciPy) : Prop :=
  forall (f : fval -> fval) (g : R -> R),
    (forall s, sigma_lo <= s <= sigma_hi -> f (Num s) = Num (g s)) ->
    (forall s, sigma_lo <= s <= sigma_hi -> continuity_pt g s) ->
    g sigma_lo * g sigma_hi < 0 ->
    exists v z : R,
      brentq lib f (Num sigma_lo) (Num sigma_hi) 100 = Ok (Num v)
      /\ sigma_lo <= z <= sigma_hi /\ g z = 0 /\ Rabs (v - z) <= root_tol.

(** The forward log-moneyness [ln(S/K) + rT] is small enough for [d1] to
    increase and [d2] to decrease with the volatility over the whole
    bracket: the options at the money of the forward. *)
Definition forward_at_the_money (S K T r : R) : Prop :=
  Rabs (ln (S / K) + r * T)
  <= sigma_lo * sigma_lo * T / 2 + eps8 * sigma_lo * sqrt T.

(** A root finder to instantiate the contract: bisection, [n] halvings, the
    midpoint of the last interval as the answer. *)
Fixpoint bisect (f : fval -> fval) (a b : R) (n : nat) : R :=
  match n with
  | O => (a + b) / 2
  | S n' =>
      let m := (a + b) / 2 in
      match f (Num a), f (Num m) with
      | Num ya, Num ym =>
          if Rle_dec (ya * ym) 0 then bisect f a m n' else bisect f m b n'
      | _, _ => m
      end
  end.

(** The distribution function of the logistic law. *)
Definition logistic (x : R) : R := / (1 + exp (- x)).

(** A stand-in with a strictly increasing, continuous distribution function
    and bisection as the root finder; like [brentq], the root finder raises
    when the objective has the same sign at both ends. *)
Definition bisect_lib : SciPy := {|
  norm_cdf := logistic;
  brentq := fun f a b maxiter =>
    match a, b with
    | Num a', Num b' =>
        match f a, f b with
        | Num ya, Num yb =>
            if Rlt_dec 0 (ya * yb) then Raise ValueError
            else Ok (Num (bisect f a' b' maxiter))
        | _, _ => Raise ValueError
        end
    | _, _ => Raise ValueError
    end;
  CloughTocher2DInterpolator := fun _ _ => Ok (fun _ _ => NaN);
  float32 := Num;
  float32_zero := eq_refl
|}.

(** A second distribution function, strictly increasing and continuous with
    values in (0, 1), on which the prices can be bounded by hand. *)
Definition algebraic_cdf (x : R) : R := 1 / 2 + x / (2 * (1 + Rabs x)).

(** The bisection stand-in with this distribution function. *)
Definition algebraic_lib : SciPy := {|
  norm_cdf := algebraic_cdf;
  brentq := brentq bisect_lib;
  CloughTocher2DInterpolator := fun _ _ => Ok (fun _ _ => NaN);
  float32 := Num;
  float32_zero := eq_refl
|}.

(* ================================================================== *)
(** * Results *)

(** ** Arithmetic of floating values *)

(** Closes a branch whose last hypothesis contradicts linear arithmetic,
    square roots being non-negative. *)
Ltac fv_absurd :=
  solve [ lra
        | exfalso;
          match goal with
          | H : context [sqrt ?x] |- _ => pose proof (sqrt_pos x); lra
          end ].

(** Case analysis on the comparisons of reals left in the goal. *)
Ltac fv_dec :=
  repeat match goal with
    | |- context [Rlt_dec ?a ?b] => destruct (Rlt_dec a b); try fv_absurd
    | |- context [Rle_dec ?a ?b] => destruct (Rle_dec a b); try fv_absurd
    | |- context [Req_dec_T ?a ?b] => destruct (Req_dec_T a b); try fv_absurd
    end.

Lemma fsqrt_0 : fsqrt (Num 0) = Num 0.
Proof. unfold fsqrt. fv_dec. now rewrite sqrt_0. Qed.

Lemma fsqrt_1 : fsqrt (Num 1) = Num 1.
Proof. unfold fsqrt. fv_dec. now rewrite sqrt_1. Qed.

Lemma Num_inj (a b : R) : Num a = Num b -> a = b.
Proof. now intros [=]. Qed.

(** At expiry the standardised moneyness does not see the volatility. *)
Lemma d1_of_T0 (S K : fval) (r s : R) :
  d1_of S K (Num 0) (Num r) (Num s) = (flog (S / K) / Num eps8)%fv.
Proof.
  unfold d1_of. rewrite fsqrt_0. cbn [fmul fadd].
  replace ((r + 1 / 2 * (s * s)) * 0) with 0 by ring.
  replace (s * 0 + eps8) with eps8 by ring.
  f_equal. destruct (flog (S / K)%fv); cbn; trivial.
  f_equal; ring.
Qed.

Lemma price_T0 (lib : SciPy) (S K : fval) (r s1 s2 : R) (side : string) :
  black_scholes_price lib S K (Num 0) (Num r) (Num s1) side
  = black_scholes_price lib S K (Num 0) (Num r) (Num s2) side.
Proof.
  unfold black_scholes_price. rewrite !d1_of_T0, fsqrt_0. cbn [fmul].
  replace (s1 * 0) with 0 by ring. replace (s2 * 0) with 0 by ring.
  reflexivity.
Qed.

(** ** The solver *)

(** C8: for every input, [implied_volatility] yields a value and raises
    nothing: it passes the bracket (1e-6, 5.0) and the budget of 100
    iterations to the root finder, returns the root when there is one, and
    returns the [nan] sentinel whenever the root finder raises (no sign
    change in the bracket, no convergence within the budget, or anything
    else). *)
Theorem implied_volatility_never_raises :
  forall (lib : SciPy) (S K T r market_price : fval) (option_type : string),
    match brentq lib (iv_objective lib S K T r market_price option_type)
                 (Num (1 / 1000000)) (Num 5) 100 with
    | Ok root => implied_volatility lib S K T r market_price option_type = root
    | Raise _ => implied_volatility lib S K T r market_price option_type = NaN
    end.
Proof.
  intros. unfold implied_volatility, sigma_lo, sigma_hi.
  destruct (brentq lib _ _ _ _); reflexivity.
Qed.


Lemma fsub_zero (a b : fval) : (a - b)%fv = Num 0 -> a = b.
Proof.
  destruct a, b; cbn; try discriminate.
  intros H; apply Num_inj in H. f_equal; lra.
Qed.

Lemma flog_Num (x : R) : 0 < x -> flog (Num x) = Num (ln x).
Proof. intros. unfold flog. now fv_dec. Qed.

Lemma fdiv_Num (x y : R) : y <> 0 -> (Num x / Num y)%fv = Num (x / y).
Proof. intros. unfold fdiv. destruct (Req_dec_T y 0); [contradiction|trivial]. Qed.

(** ** The builder as a whole *)

Lemma bind_Ok {A B : Type} (m : result A) (k : A -> result B) (b : B) :
  bind m k = Ok b -> exists a, m = Ok a /\ k a = Ok b.
Proof. destruct m; cbn; [eauto | discriminate]. Qed.

Ltac bind_inv H :=
  let a := fresh "a" in
  let E := fresh "E" in
  apply bind_Ok in H; destruct H as [a [E H]].

(** What a successful run returns, read off the last statements of the
    function. *)
Lemma create_options_mat_Ok (lib : SciPy) (opt_file : OptFile) (expiry : string)
    (eqt_file : option (list EqtRow)) (out : Mat.t) :
  create_options_mat lib opt_file expiry eqt_file = Ok out ->
  exists (df : list Row) (uu_re uu_im : list (list fval)),
    let x_grid := np_sort (unique (log_moneyness_of df)) in
    let t_grid :=
      np_sort (unique (t_normalized_of (map (fun r : Row => DTE r) df))) in
    align_spot (load_and_clean (opt_rows opt_file)) eqt_file = Ok df
    /\ Mat.x out = map (astype_float32 lib) x_grid
    /\ Mat.tt out = map (astype_float32 lib) t_grid
    /\ interpolate lib (log_moneyness_of df)
         (t_normalized_of (map (fun r : Row => DTE r) df))
         (fst (meshgrid x_grid t_grid)) (snd (meshgrid x_grid t_grid))
         (map (fun r : Row => LTP r) df) = Ok uu_re
    /\ (exists ImPsi,
          interpolate lib (log_moneyness_of df)
            (t_normalized_of (map (fun r : Row => DTE r) df))
            (fst (meshgrid x_grid t_grid)) (snd (meshgrid x_grid t_grid))
            ImPsi = Ok uu_im)
    /\ Mat.uu out = zip_with (zip_with uu_cell) uu_re uu_im
    /\ Mat.mask out = map (map mask_cell) uu_re
    /\ Mat.symbol out = "RELIANCE"%string
    /\ Mat.expiry out = expiry.
Proof.
  unfold create_options_mat. intros H.
  bind_inv H. bind_inv H. cbn [meshgrid] in H.
  do 9 bind_inv H.
  injection H as <-. cbn.
  exists a, a1, a2. repeat split; trivial.
  eexists; eassumption.
Qed.

(** The run on the one-quote sample file succeeds, on a grid of one cell. *)
Lemma one_quote_run :
  exists out,
    create_options_mat sample_lib one_quote_file "20250529" None = Ok out
    /\ Mat.x out = [Num (ln (100 / 100))]
    /\ Mat.tt out = [Num (30 / 30)].
Proof.
  pose proof (sqrt_pos (30 / 365)) as Hs.
  eexists. split.
  - unfold create_options_mat. cbn. fv_dec. cbn. fv_dec. cbn.
    unfold d1_of, cdf, eps8. do 4 (cbn; fv_dec).
    reflexivity.
  - cbn. split; reflexivity.
Qed.

(** C10: whatever the file, the expiry argument and the equity file, a run
    that produces a container writes the constant ['RELIANCE'] under
    [symbol]. *)
Theorem symbol_is_constant :
  forall (lib : SciPy) (opt_file : OptFile) (expiry : string)
         (eqt_file : option (list EqtRow)) (out : Mat.t),
    create_options_mat lib opt_file expiry eqt_file = Ok out ->
    Mat.symbol out = "RELIANCE"%string.
Proof.
  intros lib opt_file expiry eqt_file out H.
  apply create_options_mat_Ok in H.
  destruct H as (df & uu_re & uu_im & _ & _ & _ & _ & _ & _ & _ & Hsym & _).
  exact Hsym.
Qed.

Lemma symbol_is_constant_witness :
  exists out,
    create_options_mat sample_lib one_quote_file "20250529" None = Ok out
    /\ Mat.symbol out = "RELIANCE"%string.
Proof.
  destruct one_quote_run as [out [H _]].
  exists out. split; [exact H|].
  exact (symbol_is_constant sample_lib one_quote_file "20250529" None out H).
Defined.

(** ** The mask *)

Lemma nth_error_zip_with {A B C : Type} (f : A -> B -> C) (l : list A)
    (m : list B) (i : nat) (a : A) (b : B) :
  nth_error l i = Some a -> nth_error m i = Some b ->
  nth_error (zip_with f l m) i = Some (f a b).
Proof.
  revert m i. induction l as [|a' l IH]; intros [|b' m] [|i]; cbn;
    try discriminate.
  - now intros [= ->] [= ->].
  - apply IH.
Qed.

Lemma nth_error_const_row {A B : Type} (l : list A) (b : B) (k : nat) (a : A) :
  nth_error l k = Some a -> nth_error (map (fun _ => b) l) k = Some b.
Proof.
  intros H. rewrite nth_error_map, H. reflexivity.
Qed.

(** Evaluating a surface on the mesh of the two grids. *)
Lemma cell_on_meshgrid (f : surface) (x_grid t_grid : list fval) (i k : nat)
    (ti xk : fval) :
  nth_error t_grid i = Some ti -> nth_error x_grid k = Some xk ->
  cell (zip_with (zip_with f) (fst (meshgrid x_grid t_grid))
                 (snd (meshgrid x_grid t_grid))) i k
  = Some (f xk ti).
Proof.
  intros Ht Hx. unfold cell, meshgrid. cbn [fst snd].
  rewrite (nth_error_zip_with (zip_with f) _ _ i x_grid
             (map (fun _ => ti) x_grid)).
  - apply nth_error_zip_with; [exact Hx|].
    now apply nth_error_const_row with (a := xk).
  - now apply nth_error_const_row with (a := ti).
  - rewrite nth_error_map, Ht. reflexivity.
Qed.

Lemma interpolate_Ok (lib : SciPy) (lm tn : list fval)
    (grid_x grid_t : list (list fval)) (field : list fval)
    (M : list (list fval)) :
  interpolate lib lm tn grid_x grid_t field = Ok M ->
  exists f : surface,
    CloughTocher2DInterpolator lib (map fst (valid_points lm tn field))
      (map snd (valid_points lm tn field)) = Ok f
    /\ M = zip_with (zip_with f) grid_x grid_t.
Proof.
  unfold interpolate. intros H. bind_inv H.
  injection H as <-. eauto.
Qed.

Lemma cell_zip_with {A B C : Type} (f : A -> B -> C) (M : list (list A))
    (N : list (list B)) (i k : nat) (a : A) (b : B) :
  cell M i k = Some a -> cell N i k = Some b ->
  cell (zip_with (zip_with f) M N) i k = Some (f a b).
Proof.
  unfold cell. intros HM HN.
  destruct (nth_error M i) as [rm|] eqn:Em; [|discriminate].
  destruct (nth_error N i) as [rn|] eqn:En; [|discriminate].
  rewrite (nth_error_zip_with (zip_with f) M N i rm rn Em En).
  now apply nth_error_zip_with.
Qed.

Lemma cell_map {A B : Type} (g : A -> B) (M : list (list A)) (i k : nat) (a : A) :
  cell M i k = Some a -> cell (map (map g) M) i k = Some (g a).
Proof.
  unfold cell. intros HM. rewrite nth_error_map.
  destruct (nth_error M i) as [rm|]; [|discriminate]. cbn.
  rewrite nth_error_map, HM. reflexivity.
Qed.

Lemma mask_cell_one (p : fval) : mask_cell p = Num 1 <-> fgtb p (Num 0) = true.
Proof.
  unfold mask_cell, as_int. destruct (fgtb p (Num 0)); split; trivial;
    try discriminate.
  intros H. apply Num_inj in H. lra.
Qed.

Lemma mask_cell_zero (p : fval) : mask_cell p = Num 0 <-> fgtb p (Num 0) = false.
Proof.
  unfold mask_cell, as_int. destruct (fgtb p (Num 0)); split; trivial;
    try discriminate.
  intros H. apply Num_inj in H. lra.
Qed.

(** The real part of a cell of [uu] is the interpolated price as long as
    the other interpolant is finite there. *)
Lemma re_uu_cell (p : fval) (y : R) : re (uu_cell p (Num y)) = p.
Proof.
  unfold uu_cell, cadd, cmul, of_real, j1. cbn.
  destruct p; cbn; trivial. f_equal. ring.
Qed.

(** ** The solver stage *)

(** C3, as stated, fails: in a file that has an [IV] column, the quote whose
    volatility is missing is not handed to the solver. *)
Lemma missing_iv_not_solved :
  ~ solved_per_quote sample_lib true mixed_iv_rows.
Proof.
  intros H.
  apply (H (nth 1 mixed_iv_rows (Build_Row (mk_quote 0 NaN NaN NaN NaN NaN) NaN))).
  - cbn. right. left. reflexivity.
  - reflexivity.
Qed.

(** C3, amended: the decision to solve is made once for the file.  Without
    an [IV] column every quote is handed to the solver, which inverts the
    price of that quote (spot, strike, DTE/365, rate 0.05, last price, side);
    with an [IV] column no quote is, and the column is kept as read, missing
    entries included. *)
Theorem solver_runs_only_without_IV_column :
  forall (lib : SciPy) (df : list Row),
    (snd (compute_iv lib false df) = df
     /\ fst (compute_iv lib false df)
        = map (fun r : Row =>
                 implied_volatility lib (Spot r) (StrikePrice r)
                   (DTE r / Num 365)%fv (Num (5/100)) (LTP r) (OptionsType r))
              df)
    /\ (snd (compute_iv lib true df) = []
        /\ fst (compute_iv lib true df) = map (fun r : Row => IV_cell r) df).
Proof.
  intros lib df. repeat split.
Qed.

(** ** The order of [np.sort] *)

Lemma fleb_refl (a : fval) : fleb a a = true.
Proof. destruct a; cbn; trivial. now fv_dec. Qed.

Lemma fleb_total (a b : fval) : fleb a b = true \/ fleb b a = true.
Proof. destruct a, b; cbn; auto. fv_dec; auto. Qed.

Lemma fleb_trans (a b c : fval) :
  fleb a b = true -> fleb b c = true -> fleb a c = true.
Proof.
  destruct a, b, c; cbn; trivial; try discriminate.
  fv_dec; trivial; discriminate.
Qed.

(** ** Time normalisation *)

(** [Series.max] is an upper bound of the entries that are not missing, and
    is itself not missing when there is such an entry. *)
Lemma series_max_upper (col : list fval) (d : fval) :
  In d col -> d <> NaN ->
  series_max col <> NaN /\ fleb d (series_max col) = true.
Proof.
  induction col as [|a t IH]; [contradiction|].
  intros [->|Hin] Hd; cbn [series_max fold_right];
    fold (series_max t); unfold fmax2.
  - destruct d; try contradiction;
      destruct (series_max t) eqn:Em;
      try (split; [discriminate | apply fleb_refl]);
      match goal with
      | |- context [if fleb ?u ?v then _ else _] =>
          destruct (fleb u v) eqn:E
      end;
      (split; [discriminate | first [exact E | apply fleb_refl]]).
  - destruct (IH Hin Hd) as [Hm Hle].
    destruct a; destruct (series_max t) eqn:Em; try contradiction;
      try (split; [discriminate | exact Hle]);
      match goal with
      | |- context [if fleb ?u ?v then _ else _] =>
          destruct (fleb u v) eqn:E
      end;
      try (split; [discriminate | exact Hle]);
      (split; [discriminate|]);
      match goal with
      | E : fleb ?u ?v = false |- _ =>
          destruct (fleb_total u v) as [C|C]; [congruence|];
          exact (fleb_trans _ _ _ Hle C)
      end.
Qed.

(** ** Sorting and distinct values *)

Section SortFacts.

Context {A : Type} (leb : A -> A -> bool).
Hypothesis leb_total : forall a b, leb a b = true \/ leb b a = true.
Hypothesis leb_trans :
  forall a b c, leb a b = true -> leb b c = true -> leb a c = true.

Lemma insert_sorted_perm (a : A) (l : list A) :
  Permutation (insert_sorted leb a l) (a :: l).
Proof.
  induction l as [|b t IH]; cbn; [reflexivity|].
  destruct (leb a b); [reflexivity|].
  rewrite IH. apply perm_swap.
Qed.

Lemma sort_by_perm (l : list A) : Permutation (sort_by leb l) l.
Proof.
  induction l as [|a t IH]; cbn; [constructor|].
  fold (sort_by leb t). rewrite insert_sorted_perm. now constructor.
Qed.

Lemma insert_sorted_sorted (a : A) (l : list A) :
  StronglySorted (fun u v => leb u v = true) l ->
  StronglySorted (fun u v => leb u v = true) (insert_sorted leb a l).
Proof.
  induction 1 as [|b t Hs IH Hb]; cbn.
  - repeat constructor.
  - destruct (leb a b) eqn:E.
    + constructor; [now constructor|].
      constructor; [exact E|].
      eapply Forall_impl; [|exact Hb]. intros c Hc. eapply leb_trans; eauto.
    + constructor; [exact IH|].
      eapply Permutation_Forall.
      * symmetry. apply insert_sorted_perm.
      * constructor; [|exact Hb].
        destruct (leb_total a b) as [C|C]; [congruence|exact C].
Qed.

Lemma sort_by_sorted (l : list A) :
  StronglySorted (fun u v => leb u v = true) (sort_by leb l).
Proof.
  induction l as [|a t IH]; cbn; [constructor|].
  now apply insert_sorted_sorted.
Qed.

End SortFacts.

Lemma remove_NoDup (x : fval) (l : list fval) :
  NoDup l -> NoDup (remove fval_eq_dec x l).
Proof.
  induction 1 as [|a t Hn Ht IH]; cbn; [constructor|].
  destruct (fval_eq_dec x a); [exact IH|].
  constructor; [|exact IH].
  intros Hin. apply in_remove in Hin. tauto.
Qed.

Lemma unique_In (l : list fval) (v : fval) : In v (unique l) <-> In v l.
Proof.
  induction l as [|a t IH]; cbn; [tauto|].
  split.
  - intros [->|Hin]; [now left|].
    apply in_remove in Hin. right. now apply IH.
  - intros [->|Hin]; [now left|].
    destruct (fval_eq_dec a v) as [->|Hne]; [now left|].
    right. apply in_in_remove; [congruence | now apply IH].
Qed.

Lemma unique_NoDup (l : list fval) : NoDup (unique l).
Proof.
  induction l as [|a t IH]; cbn; constructor.
  - apply remove_In.
  - now apply remove_NoDup.
Qed.

Lemma np_sort_perm (l : list fval) : Permutation (np_sort l) l.
Proof. apply sort_by_perm. Qed.

Lemma np_sort_sorted (l : list fval) :
  StronglySorted (fun u v => fleb u v = true) (np_sort l).
Proof. apply sort_by_sorted; [exact fleb_total | exact fleb_trans]. Qed.

(** On values that are not missing, [<=] between different values is [<]. *)
Lemma fleb_strict (a b : fval) :
  fleb a b = true -> a <> b -> a <> NaN -> b <> NaN -> fltb a b = true.
Proof.
  unfold fltb. destruct a, b; cbn; trivial; try discriminate; try congruence.
  fv_dec; trivial. intros _ Hne. exfalso. apply Hne. f_equal. lra.
Qed.

(** The grid built from a column without missing values. *)
Lemma grid_of_column (col : list fval) :
  (forall v, In v col -> v <> NaN) ->
  distinct_count col (length (np_sort (unique col)))
  /\ NoDup (np_sort (unique col))
  /\ strictly_increasing (np_sort (unique col)).
Proof.
  intros Hcol.
  assert (Hnd : NoDup (np_sort (unique col)))
    by (eapply Permutation_NoDup;
        [symmetry; apply np_sort_perm | apply unique_NoDup]).
  assert (Hin : forall v, In v (np_sort (unique col)) -> In v col).
  { intros v Hv. apply unique_In.
    eapply Permutation_in; [apply np_sort_perm | exact Hv]. }
  split; [|split; [exact Hnd|]].
  - intros d Hd Hsame.
    rewrite (Permutation_length (np_sort_perm (unique col))).
    apply Permutation_length, NoDup_Permutation;
      [exact Hd | apply unique_NoDup|].
    intros v. rewrite Hsame. symmetry. apply unique_In.
  - unfold strictly_increasing.
    pose proof (np_sort_sorted (unique col)) as Hs.
    induction Hs as [|a t Hs IH Ha]; constructor.
    + apply IH.
      * now inversion Hnd.
      * intros v Hv. apply Hin. now right.
    + inversion Hnd as [|? ? Hna Hnt]; subst.
      rewrite Forall_forall in *. intros b Hb.
      apply fleb_strict.
      * now apply Ha.
      * intros ->. contradiction.
      * apply Hcol, Hin. now left.
      * apply Hcol, Hin. now right.
Qed.

(** ** A zero denominator in the time normalisation *)

Lemma div_by_zero_max (d : fval) :
  d = NaN \/ fleb d (Num 0) = true ->
  ((d / Num 0)%fv = NaN \/ (d / Num 0)%fv = NInf)
  /\ (d = Num 0 -> (d / Num 0)%fv = NaN).
Proof.
  intros [->|Hle]; [cbn; split; [auto | discriminate]|].
  destruct d; cbn in *; try discriminate.
  - unfold inf_signed. revert Hle. fv_dec; intros; try discriminate.
    all: split; auto.
    intros E. apply Num_inj in E. lra.
  - fv_dec. split; [auto | discriminate].
Qed.

(** C5, as stated, fails: on a batch whose days-to-expiry are all zero the
    normalised times are [nan] and nothing is raised for it; with an
    interpolator that accepts the resulting point sets the run ends with a
    container whose time grid is [nan]. *)
Lemma zero_dte_not_rejected :
  t_normalized_of (map DTE (opt_rows zero_dte_file)) = [NaN; NaN]
  /\ exists out,
       create_options_mat lenient_lib zero_dte_file "20250529" None = Ok out
       /\ Mat.tt out = [NaN].
Proof.
  split.
  - unfold t_normalized_of. cbn. fv_dec. cbn. unfold inf_signed. now fv_dec.
  - pose proof (sqrt_pos (0 / 365)) as Hs.
    eexists. split.
    + unfold create_options_mat. cbn. fv_dec. cbn. fv_dec. cbn.
      unfold d1_of, cdf, eps8, inf_signed. do 6 (cbn; fv_dec).
      reflexivity.
    + cbn. reflexivity.
Qed.

(** C5, amended: when the largest days-to-expiry of the batch is zero the
    normalisation raises nothing; every normalised time is [nan] or [-inf],
    a quote with zero days to expiry gets [nan], and a container produced by
    the run has a time grid made of those values only. *)
Theorem zero_max_dte_propagates_nan :
  forall (lib : SciPy) (opt_file : OptFile) (expiry : string)
         (eqt_file : option (list EqtRow)) (df : list Row),
    align_spot (load_and_clean (opt_rows opt_file)) eqt_file = Ok df ->
    series_max (map (fun r : Row => DTE r) df) = Num 0 ->
    let t_normalized := t_normalized_of (map (fun r : Row => DTE r) df) in
    t_normalized = map (fun r : Row => (DTE r / Num 0)%fv) df
    /\ (forall v, In v t_normalized -> v = NaN \/ v = NInf)
    /\ (forall (i : nat) (r : Row),
          nth_error df i = Some r -> DTE r = Num 0 ->
          nth_error t_normalized i = Some NaN)
    /\ (forall out,
          create_options_mat lib opt_file expiry eqt_file = Ok out ->
          forall v, In v (Mat.tt out) -> v = NaN \/ v = NInf).
Proof.
  intros lib opt_file expiry eqt_file df Hdf Hmax t_normalized.
  assert (E : t_normalized = map (fun r : Row => (DTE r / Num 0)%fv) df).
  { unfold t_normalized, t_normalized_of. rewrite Hmax, map_map. reflexivity. }
  assert (Hall : forall v, In v t_normalized -> v = NaN \/ v = NInf).
  { intros v Hv. rewrite E in Hv. apply in_map_iff in Hv.
    destruct Hv as [r [<- Hr]].
    apply div_by_zero_max.
    destruct (fval_eq_dec (DTE r) NaN) as [Hn|Hn]; [now left|right].
    rewrite <- Hmax. apply series_max_upper; [|exact Hn].
    apply in_map_iff. now exists r. }
  split; [exact E|]. split; [exact Hall|]. split.
  - intros i r Hi Hr. rewrite E, nth_error_map, Hi. cbn. f_equal.
    apply div_by_zero_max; [|exact Hr]. right. rewrite Hr. apply fleb_refl.
  - intros out Hout v Hv.
    apply create_options_mat_Ok in Hout.
    destruct Hout as (df' & _ & _ & Hdf' & _ & Et & _).
    cbn zeta in Hdf', Et. rewrite Hdf in Hdf'. injection Hdf' as <-.
    rewrite Et in Hv. apply in_map_iff in Hv. destruct Hv as [u [<- Hu]].
    assert (Hcase : u = NaN \/ u = NInf).
    { apply Hall. unfold t_normalized. apply unique_In.
      eapply Permutation_in; [apply np_sort_perm | exact Hu]. }
    destruct Hcase as [-> | ->]; cbn; auto.
Qed.

Lemma zero_max_dte_propagates_nan_witness :
  nth_error (t_normalized_of (map (fun r : Row => DTE r) zero_dte_rows)) 0
  = Some NaN.
Proof.
  destruct (zero_max_dte_propagates_nan sample_lib zero_dte_file "20250529"
              None zero_dte_rows) as (_ & _ & Hzero & _).
  - reflexivity.
  - cbn. now fv_dec.
  - apply (Hzero 0%nat (nth 0 zero_dte_rows
                          (Build_Row (mk_quote 0 NaN NaN NaN NaN NaN) NaN)));
      reflexivity.
Defined.

(** ** Entropy *)

Lemma std_of_prices : sample_std [10; 10; 10; 10; 20] = sqrt 20.
Proof.
  unfold sample_std, mean. cbn [length Rsum fold_right map Nat.sub INR].
  f_equal. field.
Qed.

Lemma std_of_scaled_prices : sample_std [1; 1; 1; 1; 2] = sqrt (1 / 5).
Proof.
  unfold sample_std, mean. cbn [length Rsum fold_right map Nat.sub INR].
  f_equal. field.
Qed.

Lemma std_of_returns :
  sample_std [0; 10 / 10 + - (1); 10 / 10 + - (1); 10 / 10 + - (1);
              20 / 10 + - (1)] = sqrt (1 / 5).
Proof.
  unfold sample_std, mean. cbn [length Rsum fold_right map Nat.sub INR].
  f_equal. field.
Qed.

Lemma entropy_values_differ : ln (1 + sqrt 20) <> ln (1 + sqrt (1 / 5)).
Proof.
  assert (H : sqrt (1 / 5) < sqrt 20) by (apply sqrt_lt_1; lra).
  pose proof (sqrt_pos (1 / 5)) as Hp.
  assert (L : ln (1 + sqrt (1 / 5)) < ln (1 + sqrt 20))
    by (apply ln_increasing; lra).
  lra.
Qed.

(** C2 at a failing input: five quotes priced 10, 10, 10, 10, 20.  The
    builder's entropy of the last quote is ln(1 + sqrt 20), the rolling
    deviation of the prices, and not ln(1 + sqrt(1/5)), the one of the
    returns; the quotes priced 1, 1, 1, 1, 2 have the same returns and
    another entropy. *)
Theorem entropy_tracks_price_level :
  Return_of (rows_at_prices [10; 10; 10; 10; 20])
  = Return_of (rows_at_prices [1; 1; 1; 1; 2])
  /\ nth 4 (Entropy_of (rows_at_prices [10; 10; 10; 10; 20])) NaN
     = Num (ln (1 + sqrt 20))
  /\ nth 4 (Entropy_of (rows_at_prices [1; 1; 1; 1; 2])) NaN
     = Num (ln (1 + sqrt (1 / 5)))
  /\ nth 4 (entropy_of_returns (rows_at_prices [10; 10; 10; 10; 20])) NaN
     = Num (ln (1 + sqrt (1 / 5)))
  /\ nth 4 (Entropy_of (rows_at_prices [10; 10; 10; 10; 20])) NaN
     <> nth 4 (entropy_of_returns (rows_at_prices [10; 10; 10; 10; 20])) NaN.
Proof.
  assert (E1 : nth 4 (Entropy_of (rows_at_prices [10; 10; 10; 10; 20])) NaN
               = Num (ln (1 + sqrt 20))).
  { unfold Entropy_of, compute_entropy, rolling. cbn.
    rewrite std_of_prices. now fv_dec. }
  assert (E2 : nth 4 (entropy_of_returns (rows_at_prices [10; 10; 10; 10; 20]))
                 NaN = Num (ln (1 + sqrt (1 / 5)))).
  { unfold entropy_of_returns, Return_of, pct_change, compute_entropy, rolling.
    cbn. fv_dec. cbn. rewrite std_of_returns. now fv_dec. }
  repeat split.
  - unfold Return_of, pct_change. cbn. fv_dec. cbn.
    repeat (f_equal; try lra).
  - exact E1.
  - unfold Entropy_of, compute_entropy, rolling. cbn.
    rewrite std_of_scaled_prices. now fv_dec.
  - exact E2.
  - rewrite E1, E2. intros H. apply Num_inj in H.
    now apply entropy_values_differ.
Qed.

(** ** Time order *)

Lemma zip_with_Build_Row_quotes (l : list Quote) (s : list fval) :
  length s = length l -> map quote (zip_with Build_Row l s) = l.
Proof.
  revert s. induction l as [|q l IH]; intros [|v s]; cbn; try discriminate;
    trivial.
  intros [= H]. now rewrite IH.
Qed.

Lemma ffill_from_length (prev : fval) (col : list fval) :
  length (ffill_from prev col) = length col.
Proof.
  revert prev. induction col as [|v t IH]; intros prev; cbn; [trivial|].
  now rewrite IH.
Qed.

Lemma StronglySorted_map_quote (R : Quote -> Quote -> Prop) (rows : list Row) :
  StronglySorted R (map quote rows) ->
  StronglySorted (fun a b : Row => R a b) rows.
Proof.
  induction rows as [|r t IH]; cbn; intros H; [constructor|].
  inversion H as [|? ? Hs Hall]; subst. constructor; [now apply IH|].
  rewrite Forall_map in Hall. exact Hall.
Qed.

Lemma StronglySorted_weaken {A : Type} (R R' : A -> A -> Prop) (l : list A) :
  (forall a b, R a b -> R' a b) -> StronglySorted R l -> StronglySorted R' l.
Proof.
  intros HR. induction 1 as [|a t Hs IH Ha]; constructor; [exact IH|].
  eapply Forall_impl; [|exact Ha]. intros b. apply HR.
Qed.

(** With an equity file the rows leave the merge ordered by time. *)
Lemma merge_asof_spot_time_ordered (df : list Quote) (eqt : list EqtRow)
    (rows : list Row) :
  merge_asof_spot df eqt = Ok rows -> time_ordered rows.
Proof.
  unfold merge_asof_spot. destruct (forallb _ eqt); [|discriminate].
  intros [= <-]. unfold time_ordered.
  apply (StronglySorted_map_quote
           (fun a b => (ts_of (Timestamp a) <= ts_of (Timestamp b))%Z)).
  rewrite zip_with_Build_Row_quotes.
  - unfold sort_values_Timestamp.
    eapply StronglySorted_weaken;
      [|apply (sort_by_sorted
                 (fun a b => (ts_of (Timestamp a) <=? ts_of (Timestamp b))%Z))].
    + intros a b. apply Z.leb_le.
    + intros a b. rewrite !Z.leb_le. lia.
    + intros a b c. rewrite !Z.leb_le. lia.
  - unfold ffill. now rewrite ffill_from_length, length_map.
Qed.

(** C9 at a failing input: without an equity file the rows reach the
    feature derivation in the order of the file; the two quotes of
    [unsorted_file], listed latest first, are not ordered by time there. *)
Theorem fallback_keeps_file_order :
  (forall df : list Quote,
      exists rows, align_spot df None = Ok rows /\ map quote rows = df)
  /\ exists rows,
       align_spot (load_and_clean (opt_rows unsorted_file)) None = Ok rows
       /\ map (fun r : Row => Timestamp r) rows = [Some 2%Z; Some 1%Z]
       /\ ~ time_ordered rows.
Proof.
  split.
  - intros df. eexists. split; [reflexivity|].
    rewrite map_map. cbn. apply map_id.
  - eexists. split; [reflexivity|]. split; [reflexivity|].
    intros H. inversion H as [|? ? _ Hall]; subst.
    inversion Hall as [|? ? Hle _]; subst. cbn in Hle. lia.
Qed.

(* ================================================================== *)
(** * Further properties of the builder *)

(** ** Shapes of the output arrays *)

Lemma zip_with_length {A B C : Type} (f : A -> B -> C) (l : list A) (m : list B) :
  length (zip_with f l m) = Nat.min (length l) (length m).
Proof.
  revert m. induction l as [|a l IH]; intros [|b m]; cbn; trivial.
  now rewrite IH.
Qed.

Lemma meshgrid_eval_shape (f : surface) (x_grid t_grid : list fval) :
  has_shape (zip_with (zip_with f) (fst (meshgrid x_grid t_grid))
                      (snd (meshgrid x_grid t_grid)))
            (length t_grid) (length x_grid).
Proof.
  unfold has_shape, meshgrid. cbn [fst snd]. split.
  - rewrite zip_with_length, !length_map. apply Nat.min_id.
  - induction t_grid as [|t ts IH]; cbn; constructor; [|exact IH].
    rewrite zip_with_length, length_map. apply Nat.min_id.
Qed.

Lemma has_shape_map {A B : Type} (g : A -> B) (M : list (list A)) (nt nx : nat) :
  has_shape M nt nx -> has_shape (map (map g) M) nt nx.
Proof.
  intros [Hl Hr]. split; [now rewrite length_map|].
  rewrite Forall_map. eapply Forall_impl; [|exact Hr].
  intros row Hrow. now rewrite length_map.
Qed.

Lemma has_shape_zip_with {A B C : Type} (f : A -> B -> C)
    (M : list (list A)) (N : list (list B)) (nt nx : nat) :
  has_shape M nt nx -> has_shape N nt nx ->
  has_shape (zip_with (zip_with f) M N) nt nx.
Proof.
  intros [HlM HrM] [HlN HrN]. split.
  - rewrite zip_with_length, HlM, HlN. apply Nat.min_id.
  - clear HlM HlN. revert N HrN.
    induction M as [|rm M IH]; intros [|rn N] HrN; cbn; try constructor.
    + inversion HrM; inversion HrN; subst.
      rewrite zip_with_length. replace (length rn) with (length rm) by congruence.
      apply Nat.min_id.
    + inversion HrM; inversion HrN; subst. now apply IH.
Qed.

Lemma stack_last_shape (Nt Nx : nat) (fields : list (list (list fval))) :
  has_shape (stack_last Nt Nx fields) Nt Nx
  /\ Forall (Forall (fun c => length c = length fields))
            (stack_last Nt Nx fields).
Proof.
  unfold has_shape, stack_last. repeat split.
  - now rewrite length_map, length_seq.
  - rewrite Forall_map. apply Forall_forall. intros i _.
    now rewrite length_map, length_seq.
  - rewrite Forall_map. apply Forall_forall. intros i _.
    rewrite Forall_map. apply Forall_forall. intros k _.
    now rewrite length_map.
Qed.

(** The feature tensor of a successful run. *)
Lemma create_options_mat_features (lib : SciPy) (opt_file : OptFile)
    (expiry : string) (eqt_file : option (list EqtRow)) (out : Mat.t) :
  create_options_mat lib opt_file expiry eqt_file = Ok out ->
  exists f1 f2 f3 f4 f5 f6 f7,
    Mat.features out
    = stack_last (length (Mat.tt out)) (length (Mat.x out))
                 [f1; f2; f3; f4; f5; f6; f7].
Proof.
  unfold create_options_mat. intros H.
  bind_inv H. bind_inv H. cbn [meshgrid] in H.
  do 9 bind_inv H.
  injection H as <-. cbn. rewrite !length_map. do 7 eexists. reflexivity.
Qed.

(** X1: in every container the builder produces, [uu] and [mask] have one
    row per entry of [tt] and one column per entry of [x], and [features]
    has the same two dimensions with seven channels per cell. *)
Theorem output_shapes :
  forall (lib : SciPy) (opt_file : OptFile) (expiry : string)
         (eqt_file : option (list EqtRow)) (out : Mat.t),
    create_options_mat lib opt_file expiry eqt_file = Ok out ->
    has_shape (Mat.uu out) (length (Mat.tt out)) (length (Mat.x out))
    /\ has_shape (Mat.mask out) (length (Mat.tt out)) (length (Mat.x out))
    /\ has_shape (Mat.features out) (length (Mat.tt out)) (length (Mat.x out))
    /\ Forall (Forall (fun c => length c = 7%nat)) (Mat.features out).
Proof.
  intros lib opt_file expiry eqt_file out H.
  destruct (create_options_mat_features _ _ _ _ _ H)
    as (f1 & f2 & f3 & f4 & f5 & f6 & f7 & Hf).
  apply create_options_mat_Ok in H.
  cbn zeta in H.
  destruct H as (df & uu_re & uu_im & _ & Ex & Et & Hre & [ImPsi Him]
                 & Huu & Hmask & _).
  apply interpolate_Ok in Hre. destruct Hre as [f [_ ->]].
  apply interpolate_Ok in Him. destruct Him as [g [_ ->]].
  rewrite Huu, Hmask, Hf.
  pose proof (meshgrid_eval_shape f
                (np_sort (unique (log_moneyness_of df)))
                (np_sort (unique (t_normalized_of
                                    (map (fun r : Row => DTE r) df))))) as Sf.
  pose proof (meshgrid_eval_shape g
                (np_sort (unique (log_moneyness_of df)))
                (np_sort (unique (t_normalized_of
                                    (map (fun r : Row => DTE r) df))))) as Sg.
  rewrite Ex, Et, !length_map.
  split; [now apply has_shape_zip_with|].
  split; [now apply has_shape_map|].
  apply (stack_last_shape _ _ [f1; f2; f3; f4; f5; f6; f7]).
Qed.

Lemma output_shapes_witness :
  exists out,
    create_options_mat sample_lib one_quote_file "20250529" None = Ok out
    /\ has_shape (Mat.uu out) 1 1 /\ has_shape (Mat.mask out) 1 1
    /\ has_shape (Mat.features out) 1 1.
Proof.
  destruct one_quote_run as [out [H [Hx Ht]]].
  exists out. split; [exact H|].
  destruct (output_shapes sample_lib one_quote_file "20250529" None out H)
    as (U & M & F & _).
  rewrite Hx, Ht in U, M, F. cbn in U, M, F. auto.
Defined.

(** ** Cleaning and alignment *)

Lemma load_and_clean_In (rows : list Quote) (q : Quote) :
  In q (load_and_clean rows) <->
  In q rows /\ LTP q <> NaN /\ StrikePrice q <> NaN /\ Timestamp q <> None.
Proof.
  unfold load_and_clean. rewrite !filter_In, andb_true_iff.
  unfold has_timestamp, notna.
  destruct (LTP q), (StrikePrice q), (Timestamp q); cbn;
    intuition (try discriminate; try congruence).
Qed.

Lemma merge_asof_spot_quotes (df : list Quote) (eqt : list EqtRow)
    (rows : list Row) :
  merge_asof_spot df eqt = Ok rows ->
  map quote rows = sort_values_Timestamp df.
Proof.
  unfold merge_asof_spot. destruct (forallb _ eqt); [|discriminate].
  intros [= <-]. apply zip_with_Build_Row_quotes.
  unfold ffill. now rewrite ffill_from_length, length_map.
Qed.

(** X2: the alignment neither drops nor duplicates a cleaned quote, with or
    without an equity file, and every row it returns has a last price, a
    strike and a timestamp. *)
Theorem alignment_keeps_clean_quotes :
  forall (raw : list Quote) (eqt_file : option (list EqtRow))
         (rows : list Row),
    align_spot (load_and_clean raw) eqt_file = Ok rows ->
    Permutation (map quote rows) (load_and_clean raw)
    /\ forall r : Row,
         In r rows ->
         In (quote r) raw /\ LTP r <> NaN /\ StrikePrice r <> NaN
         /\ Timestamp r <> None.
Proof.
  intros raw eqt_file rows H.
  assert (P : Permutation (map quote rows) (load_and_clean raw)).
  { destruct eqt_file as [eqt|]; cbn in H.
    - rewrite (merge_asof_spot_quotes _ _ _ H). apply sort_by_perm.
    - injection H as <-. rewrite map_map. cbn. now rewrite map_id. }
  split; [exact P|].
  intros r Hr. apply load_and_clean_In.
  eapply Permutation_in; [exact P|]. now apply in_map.
Qed.

Lemma alignment_keeps_clean_quotes_witness :
  exists rows,
    align_spot (load_and_clean (opt_rows unsorted_file)) (Some sample_eqt)
    = Ok rows
    /\ Permutation (map quote rows) (load_and_clean (opt_rows unsorted_file)).
Proof.
  eexists. split; [reflexivity|].
  apply (alignment_keeps_clean_quotes (opt_rows unsorted_file)
           (Some sample_eqt)).
  reflexivity.
Defined.

(** X3: with an equity file, the rows that reach the feature derivation are
    ordered by timestamp. *)
Theorem equity_merge_orders_by_time :
  forall (df : list Quote) (eqt : list EqtRow) (rows : list Row),
    align_spot df (Some eqt) = Ok rows -> time_ordered rows.
Proof.
  intros df eqt rows H. cbn in H.
  unfold time_ordered.
  apply (StronglySorted_map_quote
           (fun a b => (ts_of (Timestamp a) <= ts_of (Timestamp b))%Z)).
  rewrite (merge_asof_spot_quotes _ _ _ H). unfold sort_values_Timestamp.
  eapply StronglySorted_weaken;
    [|apply (sort_by_sorted
               (fun a b => (ts_of (Timestamp a) <=? ts_of (Timestamp b))%Z))].
  - intros a b. apply Z.leb_le.
  - intros a b. rewrite !Z.leb_le. lia.
  - intros a b c. rewrite !Z.leb_le. lia.
Qed.

Lemma equity_merge_orders_by_time_witness :
  exists rows,
    align_spot (load_and_clean (opt_rows unsorted_file)) (Some sample_eqt)
    = Ok rows
    /\ map (fun r : Row => Timestamp r) rows = [Some 1%Z; Some 2%Z]
    /\ time_ordered rows.
Proof.
  eexists. split; [reflexivity|]. split; [reflexivity|].
  apply (equity_merge_orders_by_time
           (load_and_clean (opt_rows unsorted_file)) sample_eqt).
  reflexivity.
Defined.

(** ** The strike as spot *)

Lemma log_moneyness_at_the_money (k : R) :
  k <> 0 -> flog (Num k / replace0 (Num k))%fv = Num 0.
Proof.
  intros Hk. unfold replace0.
  destruct (Req_dec_T k 0); [contradiction|].
  rewrite fdiv_Num by assumption.
  replace (k / k) with 1 by (field; assumption).
  rewrite flog_Num by lra. now rewrite ln_1.
Qed.

Lemma unique_constant (v : fval) (l : list fval) :
  l <> [] -> (forall u, In u l -> u = v) -> unique l = [v].
Proof.
  induction l as [|a t IH]; [contradiction|]. intros _ Hall. cbn.
  assert (a = v) as -> by (apply Hall; now left).
  f_equal. destruct t as [|b t']; [reflexivity|].
  rewrite IH; [|discriminate|intros u Hu; apply Hall; now right].
  cbn. destruct (fval_eq_dec v v); [reflexivity|contradiction].
Qed.

(** X4: without an equity file every quote takes its own strike as spot, so
    a quote whose strike is a non-zero number has log-moneyness 0; when this
    holds for all the cleaned quotes and there is at least one, the grid [x]
    of a produced container is the single coordinate 0. *)
Theorem fallback_collapses_moneyness :
  forall (lib : SciPy) (opt_file : OptFile) (expiry : string),
    let df := load_and_clean (opt_rows opt_file) in
    (forall q, In q df -> exists k, StrikePrice q = Num k /\ k <> 0) ->
    df <> [] ->
    (exists rows,
        align_spot df None = Ok rows
        /\ (forall r : Row, In r rows -> Spot r = StrikePrice r)
        /\ (forall v, In v (log_moneyness_of rows) -> v = Num 0))
    /\ forall out,
         create_options_mat lib opt_file expiry None = Ok out ->
         Mat.x out = [Num 0].
Proof.
  intros lib opt_file expiry df Hk Hne.
  set (rows := map (fun q => Build_Row q (StrikePrice q)) df).
  assert (Hlm : forall v, In v (log_moneyness_of rows) -> v = Num 0).
  { intros v Hv. unfold log_moneyness_of, rows in Hv.
    rewrite map_map in Hv. apply in_map_iff in Hv.
    destruct Hv as [q [<- Hq]]. cbn.
    destruct (Hk q Hq) as [k [-> Hk0]].
    now apply log_moneyness_at_the_money. }
  split.
  - exists rows. split; [reflexivity|]. split; [|exact Hlm].
    intros r Hr. unfold rows in Hr. apply in_map_iff in Hr.
    now destruct Hr as [q [<- _]].
  - intros out Hout. apply create_options_mat_Ok in Hout.
    destruct Hout as (df' & _ & _ & Hdf' & Ex & _).
    cbn in Hdf'. injection Hdf' as <-. fold df rows in Ex.
    rewrite Ex, (unique_constant (Num 0));
      [cbn; now rewrite float32_zero| |exact Hlm].
    unfold log_moneyness_of, rows. destruct df; [contradiction|discriminate].
Qed.

Lemma fallback_collapses_moneyness_witness :
  exists out,
    create_options_mat sample_lib one_quote_file "20250529" None = Ok out
    /\ Mat.x out = [Num 0].
Proof.
  destruct one_quote_run as [out [H _]].
  exists out. split; [exact H|].
  destruct (fallback_collapses_moneyness sample_lib one_quote_file "20250529")
    as [_ Hx].
  - cbn. intros q [<-|[]]. exists 100. split; [reflexivity|lra].
  - cbn. discriminate.
  - now apply Hx.
Defined.

(** ** No look-ahead in the spot *)

Lemma asof_fold_spec (right : list (Z * fval)) (t : Z) (acc : fval) :
  let v := fold_left (fun acc e => if (fst e <=? t)%Z then snd e else acc)
                     right acc in
  v = acc \/ exists e, In e right /\ (fst e <= t)%Z /\ snd e = v.
Proof.
  revert acc. induction right as [|e right IH]; intros acc; cbn; [now left|].
  destruct (Z.leb_spec (fst e) t) as [Hle|Hgt].
  - destruct (IH (snd e)) as [E|[e' (Hin & Hle' & E)]].
    + right. exists e. cbn in E. rewrite E. auto.
    + right. exists e'. auto.
  - destruct (IH acc) as [E|[e' (Hin & Hle' & E)]].
    + now left.
    + right. exists e'. auto.
Qed.

Lemma ffill_from_spec (prev : fval) (col : list fval) (i : nat) (v : fval) :
  nth_error (ffill_from prev col) i = Some v ->
  v = prev \/ exists j, (j <= i)%nat /\ nth_error col j = Some v.
Proof.
  revert prev i. induction col as [|c col IH]; intros prev [|i]; cbn;
    try discriminate.
  - intros [= <-]. unfold fillna. destruct (isnan c); [now left|].
    right. exists 0%nat. auto.
  - intros H. apply IH in H. destruct H as [->|[j [Hj E]]].
    + unfold fillna. destruct (isnan c); [now left|].
      right. exists 0%nat. split; [lia|reflexivity].
    + right. exists (S j). split; [lia|exact E].
Qed.

Lemma In_zip_with_Build_Row (l : list Quote) (s : list fval) (r : Row) :
  In r (zip_with Build_Row l s) ->
  exists i, nth_error l i = Some (quote r) /\ nth_error s i = Some (Spot r).
Proof.
  revert s. induction l as [|q l IH]; intros [|v s]; cbn; try contradiction.
  intros [<-|Hin].
  - exists 0%nat. auto.
  - destruct (IH s Hin) as [i Hi]. now exists (S i).
Qed.

Lemma StronglySorted_nth_le {A : Type} (R : A -> A -> Prop) (l : list A)
    (i j : nat) (a b : A) :
  StronglySorted R l -> (forall u, R u u) -> (j <= i)%nat ->
  nth_error l j = Some b -> nth_error l i = Some a -> R b a.
Proof.
  intros Hs Hrefl. revert i j. induction Hs as [|c t Hs IH Hc];
    intros [|i] [|j] Hji; cbn; try discriminate; try lia.
  - intros [= <-] [= <-]. apply Hrefl.
  - intros [= <-] Hi. rewrite Forall_forall in Hc. apply Hc.
    eapply nth_error_In; eassumption.
  - apply IH. lia.
Qed.

(** X5: with an equity file, the spot attached to a quote is missing or is
    the price of an equity tick that is not later than the quote: neither
    the as-of join nor the forward fill looks ahead in time. *)
Theorem spot_never_looks_ahead :
  forall (df : list Quote) (eqt : list EqtRow) (rows : list Row),
    align_spot df (Some eqt) = Ok rows ->
    forall r : Row,
      In r rows ->
      Spot r = NaN
      \/ exists (e : EqtRow) (te : Z),
           In e eqt /\ eqt_Timestamp e = Some te
           /\ (te <= ts_of (Timestamp r))%Z /\ eqt_LTP e = Spot r.
Proof.
  intros df eqt rows H r Hr. cbn in H. unfold merge_asof_spot in H.
  destruct (forallb _ eqt) eqn:Hall; [|discriminate].
  injection H as <-.
  apply In_zip_with_Build_Row in Hr. destruct Hr as [i [Hq Hs]].
  apply ffill_from_spec in Hs. destruct Hs as [Hs|[j [Hji Hs]]]; [now left|].
  rewrite nth_error_map in Hs.
  destruct (nth_error (sort_values_Timestamp df) j) as [qj|] eqn:Hqj;
    [|discriminate].
  cbn in Hs. injection Hs as Hs.
  assert (Hord : (ts_of (Timestamp qj) <= ts_of (Timestamp r))%Z).
  { apply (StronglySorted_nth_le
             (fun a b : Quote => (ts_of (Timestamp a) <= ts_of (Timestamp b))%Z)
             (sort_values_Timestamp df) i j (quote r) qj);
      [|intros; lia|exact Hji|exact Hqj|exact Hq].
    unfold sort_values_Timestamp.
    eapply StronglySorted_weaken;
      [|apply (sort_by_sorted
                 (fun a b => (ts_of (Timestamp a) <=? ts_of (Timestamp b))%Z))].
    - intros a b. apply Z.leb_le.
    - intros a b. rewrite !Z.leb_le. lia.
    - intros a b c. rewrite !Z.leb_le. lia. }
  pose proof (asof_fold_spec
                (sort_by (fun a b => (fst a <=? fst b)%Z)
                   (map (fun e => (ts_of (eqt_Timestamp e), eqt_LTP e)) eqt))
                (ts_of (Timestamp qj)) NaN) as Hasof.
  cbn zeta in Hasof. fold (asof_backward
    (sort_by (fun a b => (fst a <=? fst b)%Z)
       (map (fun e => (ts_of (eqt_Timestamp e), eqt_LTP e)) eqt))
    (ts_of (Timestamp qj))) in Hasof.
  rewrite Hs in Hasof. destruct Hasof as [E|[p (Hin & Hle & E)]]; [now left|].
  right.
  apply (Permutation_in _ (sort_by_perm _ _)) in Hin.
  apply in_map_iff in Hin. destruct Hin as [e [<- He]].
  rewrite forallb_forall in Hall. specialize (Hall e He).
  destruct (eqt_Timestamp e) as [te|] eqn:Ete; [|discriminate].
  exists e, te. cbn in *. repeat split; trivial. lia.
Qed.

Lemma spot_never_looks_ahead_witness :
  exists rows,
    align_spot (load_and_clean (opt_rows unsorted_file)) (Some sample_eqt)
    = Ok rows
    /\ map Spot rows = [Num 100; Num 101]
    /\ forall r : Row,
         In r rows ->
         Spot r = NaN
         \/ exists (e : EqtRow) (te : Z),
              In e sample_eqt /\ eqt_Timestamp e = Some te
              /\ (te <= ts_of (Timestamp r))%Z /\ eqt_LTP e = Spot r.
Proof.
  eexists. split; [reflexivity|]. split; [reflexivity|].
  apply (spot_never_looks_ahead (load_and_clean (opt_rows unsorted_file))
           sample_eqt).
  reflexivity.
Defined.

(** ** The pricer and the delta *)

(** On positive spot and strike, a time and a volatility that are not
    negative, the standardised moneyness is a number. *)
Lemma d1_of_finite (S K T r sigma : R) :
  0 < S -> 0 < K -> 0 <= T -> 0 <= sigma ->
  d1_of (Num S) (Num K) (Num T) (Num r) (Num sigma)
  = Num ((ln (S / K) + (r + 1 / 2 * (sigma * sigma)) * T)
         / (sigma * sqrt T + eps8)).
Proof.
  intros HS HK HT Hs. unfold d1_of.
  rewrite fdiv_Num by lra.
  rewrite flog_Num by (apply Rdiv_lt_0_compat; assumption).
  unfold fsqrt. destruct (Rlt_dec T 0); [lra|].
  cbn [fmul fadd]. rewrite fdiv_Num; [reflexivity|].
  pose proof (sqrt_pos T). unfold eps8. nra.
Qed.

(** X6: put-call parity.  When the distribution function is symmetric
    ([cdf x + cdf (-x) = 1]), on positive spot and strike and non-negative
    time and volatility, the call price minus the price of any other side is
    [S - K exp(-r T)]. *)
Theorem put_call_parity :
  forall (lib : SciPy) (S K T r sigma : R) (side : string),
    (forall x, norm_cdf lib x + norm_cdf lib (- x) = 1) ->
    0 < S -> 0 < K -> 0 <= T -> 0 <= sigma ->
    String.eqb side CE = false ->
    (black_scholes_price lib (Num S) (Num K) (Num T) (Num r) (Num sigma) CE
     - black_scholes_price lib (Num S) (Num K) (Num T) (Num r) (Num sigma) side)%fv
    = Num (S - K * exp (- r * T)).
Proof.
  intros lib S K T r sigma side Hsym HS HK HT Hs Hside.
  unfold black_scholes_price. rewrite Hside, d1_of_finite by assumption.
  set (d1 := (ln (S / K) + (r + 1 / 2 * (sigma * sigma)) * T)
             / (sigma * sqrt T + eps8)).
  unfold fsqrt. destruct (Rlt_dec T 0); [lra|].
  cbn. f_equal.
  pose proof (Hsym d1) as H1.
  pose proof (Hsym (d1 + - (sigma * sqrt T))) as H2.
  set (c1 := norm_cdf lib d1) in *.
  set (c1' := norm_cdf lib (- d1)) in *.
  set (c2 := norm_cdf lib (d1 + - (sigma * sqrt T))) in *.
  set (c2' := norm_cdf lib (- (d1 + - (sigma * sqrt T)))) in *.
  replace c1' with (1 - c1) by lra. replace c2' with (1 - c2) by lra.
  ring.
Qed.

Lemma put_call_parity_witness :
  (black_scholes_price half_lib (Num 100) (Num 90) (Num 1) (Num 0) (Num 1) CE
   - black_scholes_price half_lib (Num 100) (Num 90) (Num 1) (Num 0) (Num 1)
       "PE")%fv
  = Num (100 - 90 * exp (- 0 * 1)).
Proof.
  apply (put_call_parity half_lib 100 90 1 0 1 "PE").
  - intros x. cbn. lra.
  - lra.
  - lra.
  - lra.
  - lra.
  - reflexivity.
Defined.

(** X7: when the distribution function is symmetric and takes its values in
    [0, 1], on positive spot and strike and non-negative time and
    volatility, the call delta is a number [c] of [0, 1] and the delta of
    any other side is [c - 1], a number of [-1, 0]. *)
Theorem delta_range_and_parity :
  forall (lib : SciPy) (S K T r sigma : R) (side : string),
    (forall x, norm_cdf lib x + norm_cdf lib (- x) = 1) ->
    (forall x, 0 <= norm_cdf lib x <= 1) ->
    0 < S -> 0 < K -> 0 <= T -> 0 <= sigma ->
    String.eqb side CE = false ->
    exists c : R,
      0 <= c <= 1
      /\ black_scholes_delta lib (Num S) (Num K) (Num T) (Num r) (Num sigma) CE
         = Num c
      /\ black_scholes_delta lib (Num S) (Num K) (Num T) (Num r) (Num sigma)
           side = Num (c - 1).
Proof.
  intros lib S K T r sigma side Hsym Hrange HS HK HT Hs Hside.
  unfold black_scholes_delta. rewrite Hside, d1_of_finite by assumption.
  set (d1 := (ln (S / K) + (r + 1 / 2 * (sigma * sigma)) * T)
             / (sigma * sqrt T + eps8)).
  exists (norm_cdf lib d1). split; [apply Hrange|]. split; [reflexivity|].
  cbn. f_equal. pose proof (Hsym d1). lra.
Qed.

Lemma delta_range_and_parity_witness :
  exists c : R,
    0 <= c <= 1
    /\ black_scholes_delta half_lib (Num 100) (Num 90) (Num 1) (Num 0) (Num 1)
         CE = Num c
    /\ black_scholes_delta half_lib (Num 100) (Num 90) (Num 1) (Num 0) (Num 1)
         "PE" = Num (c - 1).
Proof.
  apply (delta_range_and_parity half_lib 100 90 1 0 1 "PE").
  - intros x. cbn. lra.
  - intros x. cbn. lra.
  - lra.
  - lra.
  - lra.
  - lra.
  - reflexivity.
Defined.

(** X8: at expiry (time 0) neither the price nor the delta depends on the
    volatility, whatever the spot, the strike, the rate and the side. *)
Theorem expiry_ignores_volatility :
  forall (lib : SciPy) (S K : fval) (r s1 s2 : R) (side : string),
    black_scholes_price lib S K (Num 0) (Num r) (Num s1) side
    = black_scholes_price lib S K (Num 0) (Num r) (Num s2) side
    /\ black_scholes_delta lib S K (Num 0) (Num r) (Num s1) side
       = black_scholes_delta lib S K (Num 0) (Num r) (Num s2) side.
Proof.
  intros. split; [apply price_T0|].
  unfold black_scholes_delta. now rewrite !d1_of_T0.
Qed.

(** ** The columns behind the output *)

(** The fields a successful run interpolates, in the order of the source. *)
Lemma create_options_mat_fields (lib : SciPy) (opt_file : OptFile)
    (expiry : string) (eqt_file : option (list EqtRow)) (out : Mat.t) :
  create_options_mat lib opt_file expiry eqt_file = Ok out ->
  exists (df : list Row) (IV : list fval)
         (uu_re uu_im f_oi f_delta f_entropy f_shock f_gap f_event f_iv
            : list (list fval)),
    let lm := log_moneyness_of df in
    let tn := t_normalized_of (map (fun r : Row => DTE r) df) in
    let x_grid := np_sort (unique lm) in
    let t_grid := np_sort (unique tn) in
    let interp :=
      interpolate lib lm tn (fst (meshgrid x_grid t_grid))
                  (snd (meshgrid x_grid t_grid)) in
    align_spot (load_and_clean (opt_rows opt_file)) eqt_file = Ok df
    /\ fill_missing_iv lib lm tn
         (fst (compute_iv lib (has_IV_column opt_file) df)) = Ok IV
    /\ interp (map (fun r : Row => LTP r) df) = Ok uu_re
    /\ interp (ImPsi_of df) = Ok uu_im
    /\ interp (map (fun r : Row => OpenInterest r) df) = Ok f_oi
    /\ interp (Entropy_of df) = Ok f_entropy
    /\ interp (VolShock_of df) = Ok f_shock
    /\ interp (OpenGap_of df) = Ok f_gap
    /\ interp (EventDay_of df) = Ok f_event
    /\ interp IV = Ok f_iv
    /\ Mat.x out = map (astype_float32 lib) x_grid
    /\ Mat.tt out = map (astype_float32 lib) t_grid
    /\ Mat.uu out = zip_with (zip_with uu_cell) uu_re uu_im
    /\ Mat.mask out = map (map mask_cell) uu_re
    /\ Mat.features out
       = stack_last (length t_grid) (length x_grid)
           [f_oi; f_delta; f_entropy; f_shock; f_gap; f_event; f_iv]
    /\ Mat.expiry out = expiry.
Proof.
  unfold create_options_mat. intros H.
  bind_inv H. bind_inv H. cbn [meshgrid] in H.
  do 9 bind_inv H.
  injection H as <-. cbn.
  exists a, a0, a1, a2, a3, a4, a5, a6, a7, a8, a9.
  repeat split; assumption.
Qed.

(** ** Rolling windows *)

Lemma rolling_length (w : nat) (agg : list R -> R) (col : list fval) :
  length (rolling w agg col) = length col.
Proof. unfold rolling. now rewrite length_map, length_seq. Qed.

Lemma rolling_nth (w : nat) (agg : list R -> R) (col : list fval) (i : nat) :
  (i < length col)%nat ->
  nth_error (rolling w agg col) i
  = Some (if (S i <? w)%nat then NaN
          else match finite_window (firstn w (skipn (S i - w) col)) with
               | Some xs => Num (agg xs)
               | None => NaN
               end).
Proof.
  intros Hi. unfold rolling. rewrite nth_error_map.
  rewrite nth_error_seq.
  destruct (Nat.ltb_spec i (length col)) as [_|?]; [reflexivity|lia].
Qed.

Lemma rolling_entries (w : nat) (agg : list R -> R) (col : list fval) (v : fval) :
  In v (rolling w agg col) -> v = NaN \/ exists xs, v = Num (agg xs).
Proof.
  unfold rolling. intros Hv. apply in_map_iff in Hv.
  destruct Hv as [i [<- _]].
  destruct (S i <? w)%nat; [now left|].
  destruct (finite_window _) as [xs|]; [right; eauto|now left].
Qed.

(** A rolling aggregate filled with zeros holds numbers only. *)
Lemma rolling_fillna0_finite (w : nat) (agg : list R -> R) (col : list fval) :
  Forall (fun v => exists y, v = Num y) (fillna0 (rolling w agg col)).
Proof.
  unfold fillna0. rewrite Forall_map. apply Forall_forall. intros v Hv.
  destruct (rolling_entries _ _ _ _ Hv) as [->|[xs ->]]; cbn; eauto.
Qed.

Lemma sample_std_nonneg (l : list R) : 0 <= sample_std l.
Proof. unfold sample_std. apply sqrt_pos. Qed.

Lemma entropy_of_std (s : R) :
  0 <= s -> exists e, flog (Num 1 + Num s)%fv = Num e /\ 0 <= e.
Proof.
  intros Hs. cbn [fadd]. rewrite flog_Num by lra.
  exists (ln (1 + s)). split; [reflexivity|].
  destruct (Req_dec s 0) as [->|Hne].
  - replace (1 + 0) with 1 by lra. rewrite ln_1. lra.
  - rewrite <- ln_1. apply Rlt_le, ln_increasing; lra.
Qed.

(** ** Entropy *)

(** X9: the entropy column has one entry per row; every entry is a number
    that is not negative (never missing, never infinite), and the first
    four rows, which have no full window of five, have entropy 0. *)
Theorem entropy_is_nonnegative :
  forall df : list Row,
    length (Entropy_of df) = length df
    /\ Forall (fun v => exists e, v = Num e /\ 0 <= e) (Entropy_of df)
    /\ forall i : nat,
         (i < 4)%nat -> (i < length df)%nat ->
         nth_error (Entropy_of df) i = Some (Num 0).
Proof.
  intros df. unfold Entropy_of, compute_entropy, fillna0.
  split; [now rewrite !length_map, rolling_length, length_map|]. split.
  - rewrite !Forall_map. apply Forall_forall. intros v Hv.
    destruct (rolling_entries _ _ _ _ Hv) as [->|[xs ->]]; cbn [fillna isnan].
    + apply entropy_of_std. lra.
    + apply entropy_of_std, sample_std_nonneg.
  - intros i Hi Hlen. rewrite !nth_error_map, rolling_nth
      by now rewrite length_map.
    destruct (Nat.ltb_spec (S i) 5) as [_|?]; [|lia].
    cbn. fv_dec. do 2 f_equal.
    replace (1 + 0) with 1 by lra. apply ln_1.
Qed.

Lemma entropy_is_nonnegative_witness :
  nth_error (Entropy_of (rows_at_prices [10; 10; 10; 10; 20])) 0
  = Some (Num 0).
Proof.
  destruct (entropy_is_nonnegative (rows_at_prices [10; 10; 10; 10; 20]))
    as (_ & _ & H).
  apply H; cbn; lia.
Defined.

(** ** The points the interpolants are fitted on *)

Lemma removelast_cons_length {A : Type} (a : A) (l : list A) :
  length (removelast (a :: l)) = length l.
Proof.
  revert a. induction l as [|b l IH]; intros a; [reflexivity|].
  change (removelast (a :: b :: l)) with (a :: removelast (b :: l)).
  cbn [length]. now rewrite IH.
Qed.

Lemma pct_change_length (col : list fval) :
  length (pct_change col) = length col.
Proof.
  unfold pct_change, shift1. rewrite length_map, length_combine.
  destruct col as [|a l]; [reflexivity|].
  cbn [length]. rewrite removelast_cons_length. apply Nat.min_id.
Qed.

Lemma ImPsi_of_length (df : list Row) : length (ImPsi_of df) = length df.
Proof.
  unfold ImPsi_of, Return_of, fillna0.
  now rewrite length_map, rolling_length, length_map, pct_change_length,
    length_map.
Qed.

(** The coordinates kept for a field without missing values are the pairs
    of coordinates that are both present. *)
Lemma valid_points_coords (lm tn field : list fval) :
  length field = length (combine lm tn) ->
  Forall (fun v => v <> NaN) field ->
  map fst (valid_points lm tn field)
  = filter (fun p => notna (fst p) && notna (snd p)) (combine lm tn).
Proof.
  unfold valid_points. generalize (combine lm tn) as ps. intros ps.
  revert field. induction ps as [|p ps IH]; intros [|v field]; cbn;
    try discriminate; trivial.
  intros [= Hlen] Hall. inversion Hall as [|? ? Hv Hrest]; subst.
  assert (notna v = true) as -> by (destruct v; trivial; contradiction).
  rewrite andb_true_r.
  destruct (notna (fst p) && notna (snd p)); cbn; now rewrite IH.
Qed.

Lemma aligned_rows_have_price (raw : list Quote)
    (eqt_file : option (list EqtRow)) (rows : list Row) :
  align_spot (load_and_clean raw) eqt_file = Ok rows ->
  Forall (fun v => v <> NaN) (map (fun r : Row => LTP r) rows).
Proof.
  intros H. rewrite Forall_map. apply Forall_forall. intros r Hr.
  assert (Hq : In (quote r) (load_and_clean raw)).
  { destruct eqt_file as [eqt|]; cbn in H.
    - assert (Hs : In (quote r) (sort_values_Timestamp (load_and_clean raw)))
        by (rewrite <- (merge_asof_spot_quotes _ _ _ H); now apply in_map).
      eapply Permutation_in; [apply sort_by_perm | exact Hs].
    - injection H as <-. apply in_map_iff in Hr.
      now destruct Hr as [q [<- Hq]]. }
  now apply load_and_clean_In in Hq.
Qed.

(** X10: the return proxy [ImPsi] is a number on every row, and in a run
    that produces a container the interpolant of the price and the one of
    the proxy are fitted on the same list of points: the rows whose two
    coordinates are present. *)
Theorem price_and_proxy_share_fit_points :
  forall (lib : SciPy) (opt_file : OptFile) (expiry : string)
         (eqt_file : option (list EqtRow)) (out : Mat.t),
    create_options_mat lib opt_file expiry eqt_file = Ok out ->
    exists (df : list Row) (f_re f_im : surface),
      let lm := log_moneyness_of df in
      let tn := t_normalized_of (map (fun r : Row => DTE r) df) in
      let pts_re := valid_points lm tn (map (fun r : Row => LTP r) df) in
      let pts_im := valid_points lm tn (ImPsi_of df) in
      align_spot (load_and_clean (opt_rows opt_file)) eqt_file = Ok df
      /\ Forall (fun v => exists y, v = Num y) (ImPsi_of df)
      /\ map fst pts_re = map fst pts_im
      /\ CloughTocher2DInterpolator lib (map fst pts_re) (map snd pts_re)
         = Ok f_re
      /\ CloughTocher2DInterpolator lib (map fst pts_im) (map snd pts_im)
         = Ok f_im.
Proof.
  intros lib opt_file expiry eqt_file out H.
  apply create_options_mat_fields in H.
  destruct H as (df & IV & uu_re & uu_im & f_oi & f_delta & f_entropy
                 & f_shock & f_gap & f_event & f_iv & H).
  cbn zeta in H. destruct H as (Hdf & _ & Hre & Him & _).
  apply interpolate_Ok in Hre. destruct Hre as [f_re [Hre _]].
  apply interpolate_Ok in Him. destruct Him as [f_im [Him _]].
  exists df, f_re, f_im. cbn zeta.
  assert (Hfin : Forall (fun v => exists y, v = Num y) (ImPsi_of df))
    by apply rolling_fillna0_finite.
  assert (Hlen : length (combine (log_moneyness_of df)
                   (t_normalized_of (map (fun r : Row => DTE r) df)))
                 = length df).
  { rewrite length_combine. unfold log_moneyness_of, t_normalized_of.
    rewrite !length_map. apply Nat.min_id. }
  repeat split; trivial.
  rewrite !valid_points_coords; trivial.
  - now rewrite ImPsi_of_length, Hlen.
  - eapply Forall_impl; [|exact Hfin]. intros v [y ->]. discriminate.
  - now rewrite length_map, Hlen.
  - eapply aligned_rows_have_price; eassumption.
Qed.

Lemma price_and_proxy_share_fit_points_witness :
  exists out,
    create_options_mat sample_lib one_quote_file "20250529" None = Ok out
    /\ exists df,
         align_spot (load_and_clean (opt_rows one_quote_file)) None = Ok df
         /\ Forall (fun v => exists y, v = Num y) (ImPsi_of df).
Proof.
  destruct one_quote_run as [out [H _]].
  exists out. split; [exact H|].
  destruct (price_and_proxy_share_fit_points sample_lib one_quote_file
              "20250529" None out H) as (df & f_re & f_im & Hdf & Hfin & _).
  exists df. split; assumption.
Defined.

(** ** Volatility shocks on a flat entropy *)

Lemma np_sort_In (l : list fval) (v : fval) : In v (np_sort l) <-> In v l.
Proof.
  split; intros H.
  - eapply Permutation_in; [apply np_sort_perm | exact H].
  - eapply Permutation_in; [symmetry; apply np_sort_perm | exact H].
Qed.

(** The 85th percentile of a column whose entries all equal [c] is missing
    (empty column) or equal to [c]. *)
Lemma quantile_of_constant (c : R) (col : list fval) :
  Forall (fun v => v = Num c) col ->
  quantile_pct 85 col = NaN \/ quantile_pct 85 col = Num c.
Proof.
  intros Hall. unfold quantile_pct.
  set (s := np_sort (filter notna col)).
  assert (Hs : forall v, In v s -> v = Num c).
  { intros v Hv. apply np_sort_In, filter_In in Hv.
    rewrite Forall_forall in Hall. now apply Hall. }
  destruct s as [|a s'] eqn:Es; [now left|]. right.
  rewrite <- Es in *.
  assert (Hn : forall k, (k < length s)%nat -> nth k s NaN = Num c)
    by (intros k Hk; apply Hs, nth_In, Hk).
  assert (Hpos : (0 < length s)%nat) by (rewrite Es; cbn; lia).
  rewrite !Hn.
  - cbn. f_equal. ring.
  - apply Nat.min_lt_iff. right. lia.
  - apply Nat.Div0.div_lt_upper_bound. lia.
Qed.

(** X11: with fewer than five quotes no window of five is ever full: the
    entropy of every quote is 0 and no quote is flagged as a volatility
    shock. *)
Theorem few_quotes_no_shock :
  forall df : list Row,
    (length df < 5)%nat ->
    Forall (fun v => v = Num 0) (Entropy_of df)
    /\ Forall (fun v => v = Num 0) (VolShock_of df).
Proof.
  intros df Hlen.
  assert (He : Forall (fun v => v = Num 0) (Entropy_of df)).
  { unfold Entropy_of, compute_entropy, fillna0, rolling.
    rewrite !Forall_map. apply Forall_forall. intros i Hi.
    apply in_seq in Hi. rewrite length_map in Hi.
    destruct (Nat.ltb_spec (S i) 5) as [_|?]; [|lia].
    cbn. fv_dec. f_equal. replace (1 + 0) with 1 by lra. apply ln_1. }
  split; [exact He|].
  unfold VolShock_of. cbn zeta. rewrite Forall_map.
  eapply Forall_impl; [|exact He]. intros v ->.
  destruct (quantile_of_constant 0 _ He) as [->| ->]; cbn; [reflexivity|].
  now fv_dec.
Qed.

Lemma few_quotes_no_shock_witness :
  Forall (fun v => v = Num 0) (VolShock_of one_quote_rows).
Proof.
  apply (few_quotes_no_shock one_quote_rows). cbn. lia.
Defined.

(** ** The fill of the volatilities *)

(** X12: the fill never changes a volatility that is present: when the
    three columns have the same length and the fill returns, the column has
    kept its length and every entry that was not missing is unchanged. *)
Theorem fill_keeps_known_iv :
  forall (lib : SciPy) (lm tn iv iv' : list fval),
    length lm = length iv -> length tn = length iv ->
    fill_missing_iv lib lm tn iv = Ok iv' ->
    length iv' = length iv
    /\ forall (i : nat) (v : fval),
         nth_error iv i = Some v -> v <> NaN -> nth_error iv' i = Some v.
Proof.
  intros lib lm tn iv iv' Hlm Htn H. unfold fill_missing_iv in H.
  destruct (0 <? length (valid_points lm tn iv))%nat.
  - bind_inv H. injection H as <-.
    assert (Hfit : length (zip_with a lm tn) = length iv)
      by (rewrite zip_with_length, Hlm, Htn; apply Nat.min_id).
    split; [rewrite zip_with_length, Hfit; apply Nat.min_id|].
    intros i v Hi Hv.
    destruct (nth_error (zip_with a lm tn) i) as [fit|] eqn:Ef.
    + rewrite (nth_error_zip_with _ _ _ i v fit Hi Ef).
      f_equal. destruct v; trivial; contradiction.
    + apply nth_error_None in Ef. rewrite Hfit in Ef.
      assert (i < length iv)%nat by (apply nth_error_Some; congruence). lia.
  - injection H as <-. auto.
Qed.

Lemma fill_keeps_known_iv_witness :
  fill_missing_iv sample_lib [Num 0; Num 0] [Num 1; Num 1] [Num (1/5); NaN]
  = Ok [Num (1/5); Num (1/5)]
  /\ nth_error [Num (1/5); Num (1/5)] 0 = Some (Num (1/5)).
Proof.
  assert (H : fill_missing_iv sample_lib [Num 0; Num 0] [Num 1; Num 1]
                [Num (1/5); NaN] = Ok [Num (1/5); Num (1/5)])
    by reflexivity.
  split; [exact H|].
  destruct (fill_keeps_known_iv sample_lib [Num 0; Num 0] [Num 1; Num 1]
              [Num (1/5); NaN] [Num (1/5); Num (1/5)] eq_refl eq_refl H)
    as [_ Hk].
  apply (Hk 0%nat (Num (1/5))); [reflexivity|discriminate].
Defined.

(** ** The range of the normalised time *)

(** A maximum that is not missing is one of the entries. *)
Lemma series_max_In (col : list fval) :
  series_max col <> NaN -> In (series_max col) col.
Proof.
  induction col as [|a t IH]; cbn [series_max fold_right];
    [intros H; now contradiction H|].
  fold (series_max t). unfold fmax2. intros H.
  destruct a; destruct (series_max t) eqn:Em;
    try (now left); try (right; apply IH; discriminate);
    try (now contradiction H);
    match goal with
    | |- context [if fleb ?u ?v then _ else _] =>
        destruct (fleb u v); [right; apply IH; discriminate | now left]
    end.
Qed.

(** X13: when the days-to-expiry of the batch are numbers that are not
    negative and their maximum is positive, every normalised time is a
    number of [0, 1] and the value 1 is reached. *)
Theorem normalized_time_in_unit_interval :
  forall (dte : list fval) (m : R),
    series_max dte = Num m -> 0 < m ->
    (forall d, In d dte -> exists y, d = Num y /\ 0 <= y) ->
    Forall (fun v => exists y, v = Num y /\ 0 <= y <= 1) (t_normalized_of dte)
    /\ In (Num 1) (t_normalized_of dte).
Proof.
  intros dte m Hmax Hm Hall. unfold t_normalized_of. rewrite Hmax. split.
  - rewrite Forall_map. apply Forall_forall. intros d Hd.
    destruct (Hall d Hd) as [y [-> Hy]].
    destruct (series_max_upper dte (Num y) Hd) as [_ Hle]; [discriminate|].
    rewrite Hmax in Hle. cbn in Hle.
    destruct (Rle_dec y m) as [Hym|]; [|discriminate].
    rewrite fdiv_Num by lra. exists (y / m). split; [reflexivity|].
    split.
    + apply Rmult_le_pos; [exact Hy|]. left. now apply Rinv_0_lt_compat.
    + apply (Rmult_le_reg_r m); [exact Hm|]. unfold Rdiv.
      rewrite Rmult_assoc, Rinv_l by lra. lra.
  - apply in_map_iff. exists (Num m). split.
    + rewrite fdiv_Num by lra. f_equal. field. lra.
    + rewrite <- Hmax. apply series_max_In. rewrite Hmax. discriminate.
Qed.

Lemma normalized_time_in_unit_interval_witness :
  In (Num 1) (t_normalized_of [Num 15; Num 30]).
Proof.
  apply (normalized_time_in_unit_interval [Num 15; Num 30] 30).
  - cbn. now fv_dec.
  - lra.
  - intros d [<-|[<-|[]]]; eexists; (split; [reflexivity|lra]).
Defined.

(** ** Repeated timestamps *)

Lemma duplicated_from_spec (seen ts : list Z) (i : nat) (b : bool) :
  nth_error (duplicated_from seen ts) i = Some b ->
  exists t,
    nth_error ts i = Some t
    /\ (b = true <->
        In t seen \/ exists j, (j < i)%nat /\ nth_error ts j = Some t).
Proof.
  revert seen i. induction ts as [|t0 ts IH]; intros seen [|i]; cbn;
    try discriminate.
  - intros [= <-]. exists t0. split; [reflexivity|].
    rewrite existsb_exists. split.
    + intros [u [Hu E]]. apply Z.eqb_eq in E. subst. now left.
    + intros [Hin|[j [Hj _]]]; [|lia].
      exists t0. split; [exact Hin|apply Z.eqb_refl].
  - intros H. destruct (IH _ _ H) as [t [Ht Hb]].
    exists t. split; [exact Ht|]. rewrite Hb. split.
    + intros [[->|Hin]|[j [Hj E]]].
      * right. exists 0%nat. split; [lia|reflexivity].
      * now left.
      * right. exists (S j). split; [lia|exact E].
    + intros [Hin|[[|j] [Hj E]]].
      * left. now right.
      * cbn in E. injection E as ->. left. now left.
      * right. exists j. split; [lia|exact E].
Qed.

(** X14: the event-day flag of a row is 1 exactly when an earlier row of
    the frame carries the same timestamp, and 0 otherwise; the first row of
    a series of equal timestamps is not flagged. *)
Theorem event_day_flags_repeats :
  forall (df : list Row) (i : nat) (v : fval),
    nth_error (EventDay_of df) i = Some v ->
    exists r : Row,
      nth_error df i = Some r
      /\ (v = Num 1 \/ v = Num 0)
      /\ (v = Num 1 <->
          exists (j : nat) (r' : Row),
            (j < i)%nat /\ nth_error df j = Some r'
            /\ ts_of (Timestamp r') = ts_of (Timestamp r)).
Proof.
  intros df i v H. unfold EventDay_of in H. rewrite nth_error_map in H.
  destruct (nth_error (duplicated _) i) as [b|] eqn:Eb; [|discriminate].
  cbn in H. injection H as <-.
  apply duplicated_from_spec in Eb. destruct Eb as [t [Ht Hb]].
  rewrite nth_error_map in Ht.
  destruct (nth_error df i) as [r|] eqn:Er; [|discriminate].
  cbn in Ht. injection Ht as <-.
  exists r. split; [reflexivity|]. split; [destruct b; auto|].
  assert (Hone : as_int b = Num 1 <-> b = true).
  { destruct b; cbn; split; trivial; try discriminate.
    intros E. apply Num_inj in E. lra. }
  rewrite Hone, Hb. split.
  - intros [[]|[j [Hj E]]].
    rewrite nth_error_map in E.
    destruct (nth_error df j) as [r'|] eqn:Er'; [|discriminate].
    cbn in E. injection E as E. exists j, r'. auto.
  - intros [j [r' (Hj & Er' & E)]]. right. exists j. split; [exact Hj|].
    now rewrite nth_error_map, Er', <- E.
Qed.

Lemma event_day_flags_repeats_witness :
  exists r : Row,
    nth_error (rows_at_prices [10; 20]) 1 = Some r
    /\ (Num 1 = Num 1 <->
        exists (j : nat) (r' : Row),
          (j < 1)%nat /\ nth_error (rows_at_prices [10; 20]) j = Some r'
          /\ ts_of (Timestamp r') = ts_of (Timestamp r)).
Proof.
  destruct (event_day_flags_repeats (rows_at_prices [10; 20]) 1 (Num 1))
    as [r (Hr & _ & Hiff)].
  - reflexivity.
  - exists r. split; assumption.
Defined.

(* ================================================================== *)
(** * The equity builder *)

Lemma linspace01_length (n : nat) : length (linspace01 n) = n.
Proof.
  destruct n as [|[|n]]; cbn [linspace01]; trivial.
  now rewrite length_map, length_seq.
Qed.

Lemma rolling_min1_length (w need : nat) (agg : list R -> R) (col : list fval) :
  length (rolling_min1 w need agg col) = length col.
Proof. unfold rolling_min1. now rewrite length_map, length_seq. Qed.

Lemma rolling_min1_entries (w need : nat) (agg : list R -> R)
    (col : list fval) (v : fval) :
  In v (rolling_min1 w need agg col) -> v = NaN \/ exists xs, v = Num (agg xs).
Proof.
  unfold rolling_min1. intros Hv. apply in_map_iff in Hv.
  destruct Hv as [i [<- _]]. cbn zeta.
  destruct (_ <? need)%nat; [now left|right; eauto].
Qed.

Lemma duplicated_from_length (seen ts : list Z) :
  length (duplicated_from seen ts) = length ts.
Proof.
  revert seen. induction ts as [|t ts IH]; intros seen; cbn; [trivial|].
  now rewrite IH.
Qed.

Lemma equity_Return_length (df : list Tick) :
  length (equity_Return df) = length df.
Proof.
  unfold equity_Return.
  now rewrite rolling_min1_length, pct_change_length, length_map.
Qed.

Lemma equity_Entropy_length (df : list Tick) :
  length (equity_Entropy df) = length df.
Proof.
  unfold equity_Entropy.
  now rewrite length_map, rolling_min1_length, equity_Return_length.
Qed.

Lemma repeat_columns_shape {A : Type} (Nx : nat) (v : list A) :
  has_shape (repeat_columns Nx v) (length v) Nx.
Proof.
  unfold has_shape, repeat_columns. split; [apply length_map|].
  rewrite Forall_map. apply Forall_forall. intros a _. apply repeat_length.
Qed.

Lemma repeat_columns_square {A : Type} (n : nat) (v : list A) :
  length v = n -> has_shape (repeat_columns n v) n n.
Proof. intros <-. apply repeat_columns_shape. Qed.

Lemma Forall_zip_with {A B C : Type} (f : A -> B -> C) (P : C -> Prop)
    (l : list A) (m : list B) :
  (forall a b, P (f a b)) -> Forall P (zip_with f l m).
Proof.
  intros HP. revert m. induction l as [|a l IH]; intros [|b m]; cbn;
    constructor; auto.
Qed.

Lemma Forall_zip_with_r {A B C : Type} (f : A -> B -> C) (Q : B -> Prop)
    (P : C -> Prop) (l : list A) (m : list B) :
  Forall Q m -> (forall a b, Q b -> P (f a b)) -> Forall P (zip_with f l m).
Proof.
  intros HQ HP. revert l. induction HQ as [|b m Hb _ IH]; intros [|a l]; cbn;
    constructor; auto.
Qed.

(** X15: the equity builder returns a square surface: with [n] the number
    of ticks that survive the cleaning, [x] and [tt] have [n] entries, [uu],
    [mask] and [features] have [n] rows of [n] columns, and every cell of
    [features] holds four channels. *)
Theorem equity_output_is_square :
  forall (input_file : list Tick) (expiry_str underlying_symbol : string),
    let out := create_equity_mat input_file expiry_str underlying_symbol in
    let n := length (equity_clean input_file) in
    length (Mat.x out) = n /\ length (Mat.tt out) = n
    /\ has_shape (Mat.uu out) n n /\ has_shape (Mat.mask out) n n
    /\ has_shape (Mat.features out) n n
    /\ Forall (Forall (fun c => length c = 4%nat)) (Mat.features out).
Proof.
  intros input_file expiry_str underlying_symbol. cbn zeta.
  unfold create_equity_mat. cbn [Mat.x Mat.tt Mat.uu Mat.mask Mat.features].
  set (df := equity_clean input_file). rewrite !length_map.
  set (n := length df).
  assert (Hvo : length (equity_VolShock df) = n)
    by (unfold equity_VolShock; cbn zeta;
        now rewrite length_map, equity_Entropy_length).
  assert (Hev : length (equity_EventDay df) = n)
    by (unfold equity_EventDay, duplicated;
        now rewrite length_map, duplicated_from_length, length_map).
  assert (Hog : length (equity_OpenGap df) = n)
    by (unfold equity_OpenGap; now rewrite length_map).
  split; [reflexivity|]. split; [apply linspace01_length|]. split.
  - apply repeat_columns_square. unfold fillna0.
    rewrite zip_with_length, !length_map, equity_Return_length.
    apply Nat.min_id.
  - split.
    + apply repeat_columns_square. apply length_map.
    + split.
      * apply repeat_columns_square. unfold fillna0.
        rewrite !zip_with_length, length_map, equity_Entropy_length, Hev,
          Hog, Hvo. fold n. now rewrite !Nat.min_id.
      * unfold repeat_columns. rewrite Forall_map.
        apply Forall_impl with (P := fun row : list fval => length row = 4%nat).
        { intros row Hrow. apply Forall_forall. intros c Hc.
          apply repeat_spec in Hc. now subst c. }
        apply Forall_zip_with_r
          with (Q := fun rest : list fval => length rest = 3%nat);
          [|intros e rest Hrest; cbn; now rewrite Hrest].
        apply Forall_zip_with_r
          with (Q := fun rest : list fval => length rest = 2%nat);
          [|intros e rest Hrest; cbn; now rewrite Hrest].
        apply Forall_zip_with. reflexivity.
Qed.

(** ** The time axis of the equity surface *)

Lemma strictly_increasing_map_seq (g : nat -> fval) (a n : nat) :
  (forall i j : nat, (i < j)%nat -> fltb (g i) (g j) = true) ->
  strictly_increasing (map g (seq a n)).
Proof.
  intros Hg. unfold strictly_increasing. revert a.
  induction n as [|n IH]; intros a; cbn; constructor; [apply IH|].
  rewrite Forall_map. apply Forall_forall. intros j Hj.
  apply in_seq in Hj. apply Hg. lia.
Qed.

(** X16: with at least two clean ticks, the axis [tt] of the equity surface
    runs from 0 to 1 in strictly increasing steps: entry [i] is
    [i / (n - 1)]. *)
Theorem equity_time_axis :
  forall (input_file : list Tick) (expiry_str underlying_symbol : string),
    let out := create_equity_mat input_file expiry_str underlying_symbol in
    let n := length (equity_clean input_file) in
    (2 <= n)%nat ->
    (forall i : nat,
        (i < n)%nat ->
        nth_error (Mat.tt out) i = Some (Num (INR i / INR (n - 1))))
    /\ nth_error (Mat.tt out) 0 = Some (Num 0)
    /\ nth_error (Mat.tt out) (n - 1) = Some (Num 1)
    /\ strictly_increasing (Mat.tt out).
Proof.
  intros input_file expiry_str underlying_symbol. cbn zeta.
  unfold create_equity_mat. cbn [Mat.tt]. rewrite length_map.
  set (n := length (equity_clean input_file)). intros Hn.
  assert (Hpos : 0 < INR (n - 1)) by (apply lt_0_INR; lia).
  assert (Hnth : forall i : nat,
             (i < n)%nat ->
             nth_error (linspace01 n) i = Some (Num (INR i / INR (n - 1)))).
  { intros i Hi. destruct n as [|[|m]]; try lia.
    cbn [linspace01]. rewrite nth_error_map, nth_error_seq.
    destruct (Nat.ltb_spec i (S (S m))); [reflexivity|lia]. }
  split; [exact Hnth|]. split; [|split].
  - rewrite Hnth by lia. cbn [INR]. do 2 f_equal. unfold Rdiv. ring.
  - rewrite Hnth by lia. do 2 f_equal. field. lra.
  - destruct n as [|[|m]]; try lia. cbn [linspace01].
    apply strictly_increasing_map_seq. intros i j Hij.
    unfold fltb. cbn [fgtb].
    destruct (Rlt_dec (INR i / INR (S (S m) - 1)) (INR j / INR (S (S m) - 1)))
      as [_|Hno]; [reflexivity|].
    exfalso. apply Hno. apply Rmult_lt_compat_r.
    + now apply Rinv_0_lt_compat.
    + now apply lt_INR.
Qed.

Lemma equity_time_axis_witness :
  nth_error (Mat.tt (create_equity_mat sample_ticks "20250529" default_symbol))
    1 = Some (Num 1).
Proof.
  destruct (equity_time_axis sample_ticks "20250529" default_symbol)
    as (_ & _ & Hlast & _).
  - cbn. lia.
  - exact Hlast.
Defined.

(** ** The cleaned ticks *)

Lemma ts_leb_total (a b : option Z) : ts_leb a b = true \/ ts_leb b a = true.
Proof.
  destruct a as [s|], b as [t|]; cbn; auto.
  rewrite !Z.leb_le. lia.
Qed.

Lemma ts_leb_trans (a b c : option Z) :
  ts_leb a b = true -> ts_leb b c = true -> ts_leb a c = true.
Proof.
  destruct a as [s|], b as [t|], c as [u|]; cbn; trivial; try discriminate.
  rewrite !Z.leb_le. lia.
Qed.

Lemma StronglySorted_filter {A : Type} (R : A -> A -> Prop) (f : A -> bool)
    (l : list A) :
  StronglySorted R l -> StronglySorted R (filter f l).
Proof.
  induction 1 as [|a t Hs IH Ha]; cbn; [constructor|].
  destruct (f a); [|exact IH]. constructor; [exact IH|].
  rewrite Forall_forall in *. intros b Hb. apply Ha.
  now apply filter_In in Hb.
Qed.

Lemma StronglySorted_weaken_on {A : Type} (P : A -> Prop) (R R' : A -> A -> Prop)
    (l : list A) :
  (forall a b, P a -> P b -> R a b -> R' a b) ->
  Forall P l -> StronglySorted R l -> StronglySorted R' l.
Proof.
  intros HR HP Hs. induction Hs as [|a t Hs IH Ha]; constructor.
  - apply IH. now inversion HP.
  - inversion HP as [|? ? Pa Pt]; subst. rewrite Forall_forall in *.
    intros b Hb. apply HR; auto.
Qed.

Lemma filter_filter {A : Type} (f g : A -> bool) (l : list A) :
  filter f (filter g l) = filter (fun a => g a && f a) l.
Proof.
  induction l as [|a l IH]; cbn; [trivial|].
  destruct (g a); cbn; [destruct (f a)|]; now rewrite ?IH.
Qed.

Lemma Permutation_filter_sort {A : Type} (f : A -> bool) (l l' : list A) :
  Permutation l l' -> Permutation (filter f l) (filter f l').
Proof.
  induction 1 as [|a l l' _ IH|a b l|l1 l2 l3 _ IH1 _ IH2]; cbn.
  - constructor.
  - destruct (f a); [now constructor|exact IH].
  - destruct (f a), (f b); try reflexivity. apply perm_swap.
  - now transitivity (filter f l2).
Qed.

(** X17: the cleaning of the equity file keeps exactly the ticks that have
    a last price, a buy price and a timestamp, each once, and returns them
    ordered by timestamp. *)
Theorem equity_clean_sorted_and_complete :
  forall input_file : list Tick,
    Permutation (equity_clean input_file) (filter tick_usable input_file)
    /\ ticks_time_ordered (equity_clean input_file).
Proof.
  intros input_file. unfold equity_clean. split.
  - rewrite (Permutation_filter_sort _ _ _ (sort_by_perm _ _)).
    rewrite filter_filter. reflexivity.
  - unfold ticks_time_ordered.
    apply (StronglySorted_weaken_on
             (fun t => exists s, tick_Timestamp t = Some s)
             (fun a b => ts_leb (tick_Timestamp a) (tick_Timestamp b) = true)).
    + intros a b [s Ha] [t Hb] Hle. exists s, t. rewrite Ha, Hb in *.
      repeat split. now apply Z.leb_le.
    + apply Forall_forall. intros t Ht. apply filter_In in Ht.
      destruct (tick_Timestamp t) as [s|]; [eauto|now destruct Ht].
    + apply StronglySorted_filter.
      apply (sort_by_sorted
               (fun a b => ts_leb (tick_Timestamp a) (tick_Timestamp b))).
      * intros a b. apply ts_leb_total.
      * intros a b c. apply ts_leb_trans.
Qed.

(** ** The cells of the equity surface *)

Lemma mask_cell_fillna (v : fval) : mask_cell (fillna (Num 0) v) = mask_cell v.
Proof.
  destruct v; trivial. unfold mask_cell, fillna. cbn. now fv_dec.
Qed.

Lemma cell_repeat_columns {A : Type} (Nx : nat) (v : list A) (i k : nat) (a : A) :
  nth_error v i = Some a -> (k < Nx)%nat ->
  cell (repeat_columns Nx v) i k = Some a.
Proof.
  intros Hi Hk. unfold cell, repeat_columns.
  rewrite nth_error_map, Hi. cbn. now apply nth_error_repeat.
Qed.

(** X18: row [i] of the equity surface repeats the [i]-th clean tick along
    the whole [x] axis: every cell of the row holds the last price of that
    tick as real part and a finite return proxy as imaginary part, and the
    mask of the cell is 1 exactly when that price is positive. *)
Theorem equity_rows_repeat_the_tick :
  forall (input_file : list Tick) (expiry_str underlying_symbol : string)
         (i k : nat) (t : Tick),
    let out := create_equity_mat input_file expiry_str underlying_symbol in
    nth_error (equity_clean input_file) i = Some t ->
    (k < length (equity_clean input_file))%nat ->
    exists y : R,
      cell (Mat.uu out) i k = Some (uu_cell (tick_LTP t) (Num y))
      /\ re (uu_cell (tick_LTP t) (Num y)) = tick_LTP t
      /\ cell (Mat.mask out) i k = Some (mask_cell (tick_LTP t))
      /\ (mask_cell (tick_LTP t) = Num 1 <-> fgtb (tick_LTP t) (Num 0) = true).
Proof.
  intros input_file expiry_str underlying_symbol i k t. cbn zeta.
  unfold create_equity_mat. cbn [Mat.uu Mat.mask]. rewrite length_map.
  set (df := equity_clean input_file). intros Hi Hk.
  assert (Hlen : (i < length df)%nat) by (apply nth_error_Some; congruence).
  destruct (nth_error (fillna0 (equity_Return df)) i) as [q|] eqn:Eq.
  2:{ apply nth_error_None in Eq. unfold fillna0 in Eq.
      rewrite length_map, equity_Return_length in Eq. lia. }
  assert (Hq : exists y, q = Num y).
  { apply nth_error_In in Eq. unfold fillna0 in Eq. apply in_map_iff in Eq.
    destruct Eq as [v [<- Hv]].
    destruct (rolling_min1_entries _ _ _ _ _ Hv) as [->|[xs ->]]; cbn; eauto. }
  destruct Hq as [y ->]. exists y.
  split; [|split; [apply re_uu_cell|split; [|apply mask_cell_one]]].
  - apply cell_repeat_columns; [|exact Hk].
    apply nth_error_zip_with; [|exact Eq].
    now rewrite nth_error_map, Hi.
  - apply cell_repeat_columns; [|exact Hk].
    rewrite nth_error_map, Hi. cbn. now rewrite mask_cell_fillna.
Qed.

Lemma equity_rows_repeat_the_tick_witness :
  exists y : R,
    cell (Mat.uu (create_equity_mat sample_ticks "20250529" default_symbol)) 0 1
    = Some (uu_cell (Num 100) (Num y))
    /\ cell (Mat.mask (create_equity_mat sample_ticks "20250529" default_symbol))
         0 1 = Some (mask_cell (Num 100)).
Proof.
  destruct (equity_rows_repeat_the_tick sample_ticks "20250529" default_symbol
              0 1 {| tick_Timestamp := Some 1%Z; tick_LTP := Num 100;
                     tick_BuyPrice := Num 90 |})
    as [y (Huu & _ & Hmask & _)].
  - reflexivity.
  - cbn. lia.
  - exists y. split; assumption.
Defined.

(** ** Returns do not see the price level *)

Lemma inf_signed_scale (c x : R) : 0 < c -> inf_signed (c * x) = inf_signed x.
Proof.
  intros Hc. unfold inf_signed.
  destruct (Rlt_dec 0 x), (Rlt_dec 0 (c * x)); trivial; try nra;
    destruct (Rlt_dec x 0), (Rlt_dec (c * x) 0); trivial; nra.
Qed.

Lemma pct_pair_scale (c x : R) (b : fval) :
  0 < c -> (b = NaN \/ exists y, b = Num y) ->
  (Num c * Num x / (Num c * b) - Num 1)%fv = (Num x / b - Num 1)%fv.
Proof.
  intros Hc [->|[y ->]]; [reflexivity|]. cbn [fmul]. f_equal. unfold fdiv.
  destruct (Req_dec_T y 0) as [->|Hy].
  - replace (c * 0) with 0 by ring.
    destruct (Req_dec_T 0 0); [|contradiction].
    now apply inf_signed_scale.
  - destruct (Req_dec_T (c * y) 0); [nra|]. f_equal. field. lra.
Qed.

Lemma removelast_map {A B : Type} (g : A -> B) (l : list A) :
  removelast (map g l) = map g (removelast l).
Proof.
  induction l as [|a [|b l] IH]; trivial.
  change (removelast (map g (a :: b :: l)))
    with (g a :: removelast (map g (b :: l))).
  now rewrite IH.
Qed.

Lemma In_removelast {A : Type} (x : A) (l : list A) :
  In x (removelast l) -> In x l.
Proof.
  induction l as [|a [|b l] IH]; cbn; [tauto|tauto|].
  intros [->|H]; [now left|right; now apply IH].
Qed.

Lemma combine_map {A B : Type} (g : A -> B) (l m : list A) :
  combine (map g l) (map g m)
  = map (fun p => (g (fst p), g (snd p))) (combine l m).
Proof.
  revert m. induction l as [|a l IH]; intros [|b m]; cbn; trivial.
  now rewrite IH.
Qed.

(** Multiplying a column of numbers by a positive factor leaves its
    percentage changes as they are. *)
Lemma pct_change_scale (c : R) (col : list fval) :
  0 < c -> Forall (fun v => exists x, v = Num x) col ->
  pct_change (map (fmul (Num c)) col) = pct_change col.
Proof.
  intros Hc Hall. unfold pct_change.
  assert (Hs : shift1 (map (fmul (Num c)) col)
               = map (fmul (Num c)) (shift1 col)).
  { unfold shift1. destruct col as [|a l]; [reflexivity|].
    cbn [map]. rewrite <- (map_cons (fmul (Num c)) a l), removelast_map.
    reflexivity. }
  rewrite Hs, combine_map, map_map. apply map_ext_in.
  intros [a b] Hin. cbn [fst snd].
  rewrite Forall_forall in Hall.
  destruct (Hall a (in_combine_l _ _ _ _ Hin)) as [x ->].
  apply pct_pair_scale; [exact Hc|].
  apply in_combine_r in Hin. unfold shift1 in Hin.
  destruct col as [|a0 l]; [contradiction|].
  destruct Hin as [<-|Hin]; [now left|].
  right. apply Hall. now apply In_removelast.
Qed.

(** X19: in the equity builder the smoothed return, the entropy and the
    volatility-shock flag are computed from the returns: multiplying every
    price of the ticks by the same positive factor leaves the three columns
    unchanged. *)
Theorem equity_entropy_ignores_price_level :
  forall (c : R) (df : list Tick),
    0 < c ->
    Forall (fun t => exists p, tick_LTP t = Num p) df ->
    equity_Return (scale_ticks c df) = equity_Return df
    /\ equity_Entropy (scale_ticks c df) = equity_Entropy df
    /\ equity_VolShock (scale_ticks c df) = equity_VolShock df.
Proof.
  intros c df Hc Hall.
  assert (HR : equity_Return (scale_ticks c df) = equity_Return df).
  { unfold equity_Return, scale_ticks. rewrite map_map. cbn [tick_LTP].
    rewrite <- (map_map tick_LTP (fmul (Num c))).
    rewrite pct_change_scale; [reflexivity|exact Hc|].
    now rewrite Forall_map. }
  assert (HE : equity_Entropy (scale_ticks c df) = equity_Entropy df)
    by (unfold equity_Entropy; now rewrite HR).
  repeat split; trivial.
  unfold equity_VolShock. now rewrite HE.
Qed.

Lemma equity_entropy_ignores_price_level_witness :
  equity_Entropy (scale_ticks 2 (equity_clean sample_ticks))
  = equity_Entropy (equity_clean sample_ticks).
Proof.
  apply (equity_entropy_ignores_price_level 2 (equity_clean sample_ticks)).
  - lra.
  - cbn. repeat constructor; eexists; reflexivity.
Defined.

(* ================================================================== *)
(** * The driver *)

(** X20: the driver writes equity containers only.  Every file it writes is
    named after an expiry of its list, holds the equity surface built from
    the equity file of that expiry with the symbol ['RELIANCE'] and that
    expiry; when no input is missing it writes one file per expiry, in
    order, and a missing input stops the loop before the remaining
    expiries. *)
Theorem driver_writes_equity_only :
  forall (files : string -> option (list Tick)) (todo : list string),
    (forall (name : string) (m : Mat.t),
        In (name, m) (fst (generate_all files todo)) ->
        exists (expiry : string) (ticks : list Tick),
          In expiry todo
          /\ files (eqt_file_name expiry) = Some ticks
          /\ name = eqt_mat_name expiry
          /\ m = create_equity_mat ticks expiry default_symbol
          /\ Mat.symbol m = "RELIANCE"%string
          /\ Mat.expiry m = expiry)
    /\ (snd (generate_all files todo) = None ->
        map fst (fst (generate_all files todo)) = map eqt_mat_name todo)
    /\ (snd (generate_all files todo) <> None ->
        (length (fst (generate_all files todo)) < length todo)%nat).
Proof.
  intros files todo. induction todo as [|e rest (IH1 & IH2 & IH3)].
  - cbn. repeat split; [contradiction|congruence].
  - cbn [generate_all]. unfold process_expiry.
    destruct (files (eqt_file_name e)) as [ticks|] eqn:Ef.
    + destruct (generate_all files rest) as [more outcome]. cbn in *.
      repeat split.
      * intros name m [[= <- <-]|Hin].
        -- exists e, ticks. repeat split; auto.
        -- destruct (IH1 name m Hin) as (e' & t' & H & R).
           exists e', t'. split; [now right|exact R].
      * intros Hn. f_equal. now apply IH2.
      * intros Hn. apply IH3 in Hn. lia.
    + cbn. repeat split; [contradiction|discriminate|lia].
Qed.

Lemma driver_writes_equity_only_witness :
  map fst (fst (generate_all sample_files expiries))
  = ["EQT_PINN_TRAIN_DATA_20250529.mat"%string].
Proof.
  destruct (driver_writes_equity_only sample_files expiries) as (_ & H & _).
  apply H. reflexivity.
Defined.

(* ================================================================== *)
(** * The grid, the mask and thin fields, with the narrowing *)

Lemma interpolate_total (lib : SciPy) (lm tn : list fval)
    (grid_x grid_t : list (list fval)) (field : list fval) :
  (forall pts vals, exists f, CloughTocher2DInterpolator lib pts vals = Ok f) ->
  exists M, interpolate lib lm tn grid_x grid_t field = Ok M.
Proof.
  intros Hfit. unfold interpolate.
  destruct (Hfit (map fst (valid_points lm tn field))
                 (map snd (valid_points lm tn field))) as [f ->].
  cbn. eauto.
Qed.

(** In the model the builder stops only on an exception of the merge or of
    a fit: with an interpolator that accepts every point set and an equity
    file without unparsable timestamp, the run returns a container. *)
Lemma run_returns_when_fits_do (lib : SciPy) (opt_file : OptFile)
    (expiry : string) (eqt_file : option (list EqtRow)) :
  (forall pts vals, exists f, CloughTocher2DInterpolator lib pts vals = Ok f) ->
  (forall eqt, eqt_file = Some eqt ->
               forall e, In e eqt -> eqt_Timestamp e <> None) ->
  exists out, create_options_mat lib opt_file expiry eqt_file = Ok out.
Proof.
  intros Hfit Heqt. unfold create_options_mat.
  assert (Hal : exists df,
             align_spot (load_and_clean (opt_rows opt_file)) eqt_file = Ok df).
  { destruct eqt_file as [eqt|]; cbn; [|eauto].
    unfold merge_asof_spot.
    assert (Hall : forallb
              (fun e => match eqt_Timestamp e with
                        | Some _ => true | None => false end) eqt = true).
    { apply forallb_forall. intros e He.
      specialize (Heqt eqt eq_refl e He).
      now destruct (eqt_Timestamp e). }
    rewrite Hall. eauto. }
  destruct Hal as [df ->]. cbn [bind].
  assert (Hfill : forall lm tn iv,
             exists iv', fill_missing_iv lib lm tn iv = Ok iv').
  { intros lm tn iv. unfold fill_missing_iv.
    destruct (0 <? _)%nat; [|eauto].
    destruct (Hfit (map fst (valid_points lm tn iv))
                   (map snd (valid_points lm tn iv))) as [f ->].
    cbn. eauto. }
  match goal with
  | |- context [fill_missing_iv lib ?lm ?tn ?iv] =>
      destruct (Hfill lm tn iv) as [IV ->]
  end.
  cbn [bind meshgrid].
  repeat match goal with
    | |- context [interpolate lib ?lm ?tn ?gx ?gt ?field] =>
        let M := fresh "M" in
        destruct (interpolate_total lib lm tn gx gt field Hfit) as [M ->];
        cbn [bind]
    end.
  eauto.
Qed.

(** ** The grid *)

Lemma fltb_irrefl (a : fval) : fltb a a = false.
Proof. unfold fltb. destruct a; cbn; trivial. now fv_dec. Qed.

Lemma strictly_increasing_NoDup (l : list fval) :
  strictly_increasing l -> NoDup l.
Proof.
  unfold strictly_increasing.
  induction 1 as [|a t Hs IH Ha]; constructor; [|exact IH].
  intros Hin. rewrite Forall_forall in Ha. specialize (Ha a Hin).
  rewrite fltb_irrefl in Ha. discriminate.
Qed.

Lemma strictly_increasing_narrowed (lib : SciPy) (l : list fval) :
  keeps_order lib l -> strictly_increasing l ->
  strictly_increasing (map (astype_float32 lib) l).
Proof.
  unfold strictly_increasing. intros Hk Hs.
  induction Hs as [|a t Hs IH Ha]; cbn; constructor.
  - apply IH. intros u v Hu Hv. apply Hk; now right.
  - rewrite Forall_map. rewrite Forall_forall in *. intros b Hb.
    apply Hk; [now left | now right | now apply Ha].
Qed.

Lemma early_quote_lm :
  log_moneyness_of early_quote_rows
  = [NaN; Num (ln (90 / 101)); Num (ln (110 / 101));
     Num (ln (90 / 101)); Num (ln (110 / 101))].
Proof.
  unfold log_moneyness_of, early_quote_rows. cbn. fv_dec. cbn. fv_dec.
  reflexivity.
Qed.



Lemma rectangle_lm :
  log_moneyness_of rectangle_rows
  = [Num (ln (90 / 100)); Num (ln (110 / 100));
     Num (ln (90 / 100)); Num (ln (110 / 100))].
Proof.
  unfold log_moneyness_of, rectangle_rows. cbn. fv_dec. cbn. fv_dec.
  reflexivity.
Qed.

Lemma rectangle_tn :
  t_normalized_of (map (fun r : Row => DTE r) rectangle_rows)
  = [Num (15 / 30); Num (15 / 30); Num (30 / 30); Num (30 / 30)].
Proof.
  unfold t_normalized_of, rectangle_rows. cbn. fv_dec. cbn. fv_dec.
  reflexivity.
Qed.


(** ** The mask and the real part of [uu] *)

(** A cell of [uu] keeps the interpolated price as its real part unless the
    price is a number and the other interpolant is not: [1j * q] has the
    real part [0 * q - 1 * 0], which is [nan] for an infinite or missing
    [q]. *)
Lemma re_uu_cell_price (p q : fval) :
  (p <> NaN -> exists y, q = Num y) -> re (uu_cell p q) = p.
Proof.
  intros Hq. destruct p as [x| | |].
  - destruct Hq as [y ->]; [discriminate|]. apply re_uu_cell.
  - destruct Hq as [y ->]; [discriminate|]. apply re_uu_cell.
  - destruct Hq as [y ->]; [discriminate|]. apply re_uu_cell.
  - reflexivity.
Qed.

Lemma flat_lib_hull_consistent : hull_consistent flat_lib.
Proof.
  intros pts v1 v2 f1 f2 x t L1 L2 H1 H2 Hv Hne. cbn in H1, H2.
  injection H1 as <-. injection H2 as <-.
  destruct v1 as [|a v1]; [now contradiction Hne|].
  destruct pts as [|p pts]; [discriminate|].
  destruct v2 as [|b v2]; [discriminate|].
  inversion Hv; subst. assumption.
Qed.

Lemma rectangle_grids :
  np_sort (unique (log_moneyness_of rectangle_rows))
  = [Num (ln (90 / 100)); Num (ln (110 / 100))]
  /\ np_sort (unique (t_normalized_of
                        (map (fun r : Row => DTE r) rectangle_rows)))
     = [Num (15 / 30); Num (30 / 30)].
Proof.
  assert (Hln : ln (90 / 100) < ln (110 / 100))
    by (apply ln_increasing; lra).
  rewrite rectangle_lm, rectangle_tn. unfold np_sort, sort_by.
  split; do 4 (cbn; fv_dec); reflexivity.
Qed.

(** C6: with an interpolator that is a number wherever another interpolant
    on the same points is defined, in every container the builder produces
    and at every grid cell (i, k), the real part of [uu] is the interpolated
    price at the grid point, [mask] is 1 if and only if that real part is
    strictly positive and 0 otherwise, and a cell whose real part is [nan]
    is masked 0. *)
Theorem mask_iff_positive_real_part :
  forall (lib : SciPy) (opt_file : OptFile) (expiry : string)
         (eqt_file : option (list EqtRow)) (out : Mat.t),
    hull_consistent lib ->
    create_options_mat lib opt_file expiry eqt_file = Ok out ->
    forall i k : nat,
      (i < length (Mat.tt out))%nat -> (k < length (Mat.x out))%nat ->
      exists (c : complex) (m : fval),
        cell (Mat.uu out) i k = Some c
        /\ cell (Mat.mask out) i k = Some m
        /\ (m = Num 1 <-> fgtb (re c) (Num 0) = true)
        /\ (m = Num 0 <-> fgtb (re c) (Num 0) = false)
        /\ (m = Num 1 \/ m = Num 0)
        /\ (re c = NaN -> m = Num 0)
        /\ exists (df : list Row) (price_surface : surface) (xk ti : fval),
             align_spot (load_and_clean (opt_rows opt_file)) eqt_file = Ok df
             /\ (let points :=
                   valid_points (log_moneyness_of df)
                     (t_normalized_of (map (fun r : Row => DTE r) df))
                     (map (fun r : Row => LTP r) df) in
                 CloughTocher2DInterpolator lib (map fst points)
                   (map snd points) = Ok price_surface)
             /\ nth_error (np_sort (unique (log_moneyness_of df))) k = Some xk
             /\ nth_error
                  (np_sort (unique (t_normalized_of
                                      (map (fun r : Row => DTE r) df)))) i
                = Some ti
             /\ re c = price_surface xk ti.
Proof.
  intros lib opt_file expiry eqt_file out Hhull H i k Hi Hk.
  apply create_options_mat_fields in H.
  destruct H as (df & IV & uu_re & uu_im & f_oi & f_delta & f_entropy
                 & f_shock & f_gap & f_event & f_iv & H).
  cbn zeta in H.
  destruct H as (Hdf & _ & Hre & Him & _ & _ & _ & _ & _ & _
                 & Ex & Et & Huu & Hmask & _).
  rewrite Et, length_map in Hi. rewrite Ex, length_map in Hk.
  destruct (nth_error (np_sort (unique (t_normalized_of
              (map (fun r : Row => DTE r) df)))) i) as [ti|] eqn:Eti;
    [|apply nth_error_None in Eti; lia].
  destruct (nth_error (np_sort (unique (log_moneyness_of df))) k)
    as [xk|] eqn:Exk; [|apply nth_error_None in Exk; lia].
  apply interpolate_Ok in Hre. destruct Hre as [f [Hf Ere]].
  apply interpolate_Ok in Him. destruct Him as [g [Hg Eim]].
  assert (Cre : cell uu_re i k = Some (f xk ti))
    by (rewrite Ere; now apply cell_on_meshgrid).
  assert (Cim : cell uu_im i k = Some (g xk ti))
    by (rewrite Eim; now apply cell_on_meshgrid).
  assert (Hfin : Forall (fun v => exists y, v = Num y) (ImPsi_of df))
    by apply rolling_fillna0_finite.
  assert (Hlen : length (combine (log_moneyness_of df)
                   (t_normalized_of (map (fun r : Row => DTE r) df)))
                 = length df).
  { rewrite length_combine. unfold log_moneyness_of, t_normalized_of.
    rewrite !length_map. apply Nat.min_id. }
  assert (Hpts : map fst (valid_points (log_moneyness_of df)
                   (t_normalized_of (map (fun r : Row => DTE r) df))
                   (map (fun r : Row => LTP r) df))
                 = map fst (valid_points (log_moneyness_of df)
                     (t_normalized_of (map (fun r : Row => DTE r) df))
                     (ImPsi_of df))).
  { rewrite !valid_points_coords; trivial.
    - now rewrite ImPsi_of_length, Hlen.
    - eapply Forall_impl; [|exact Hfin]. intros v [y ->]. discriminate.
    - now rewrite length_map, Hlen.
    - eapply aligned_rows_have_price; eassumption. }
  assert (Hvals : Forall (fun v => exists y, v = Num y)
                    (map snd (valid_points (log_moneyness_of df)
                       (t_normalized_of (map (fun r : Row => DTE r) df))
                       (ImPsi_of df)))).
  { rewrite Forall_map. apply Forall_forall. intros [pt v] Hv. cbn.
    unfold valid_points in Hv. apply filter_In in Hv. destruct Hv as [Hv _].
    apply in_combine_r in Hv. rewrite Forall_forall in Hfin.
    now apply Hfin. }
  assert (Hre : re (uu_cell (f xk ti) (g xk ti)) = f xk ti).
  { apply re_uu_cell_price. intros Hp.
    rewrite Hpts in Hf.
    refine (Hhull _ _ _ _ _ xk ti _ _ Hf Hg Hvals Hp).
    - rewrite <- Hpts. now rewrite !length_map.
    - now rewrite !length_map. }
  exists (uu_cell (f xk ti) (g xk ti)), (mask_cell (f xk ti)).
  split; [rewrite Huu; now apply cell_zip_with|].
  split; [rewrite Hmask; now apply cell_map|].
  rewrite Hre.
  split; [apply mask_cell_one|]. split; [apply mask_cell_zero|].
  split.
  { unfold mask_cell, as_int. destruct (fgtb _ _); [now left|now right]. }
  split; [intros ->; reflexivity|].
  exists df, f, xk, ti. repeat split; assumption.
Qed.

Lemma mask_iff_positive_real_part_witness :
  exists out,
    create_options_mat flat_lib rectangle_file "20250529" (Some flat_eqt)
    = Ok out
    /\ exists c,
         cell (Mat.uu out) 0 0 = Some c
         /\ re c = Num 12
         /\ cell (Mat.mask out) 0 0 = Some (Num 1).
Proof.
  destruct (run_returns_when_fits_do flat_lib rectangle_file "20250529"
              (Some flat_eqt)) as [out H].
  - intros pts vals. cbn. eauto.
  - intros eqt [= <-] e He. cbn in He. destruct He as [<-|[]]. discriminate.
  - exists out. split; [exact H|].
    destruct rectangle_grids as [Gx Gt].
    assert (Hlen : length (Mat.tt out) = 2%nat /\ length (Mat.x out) = 2%nat).
    { pose proof (create_options_mat_Ok _ _ _ _ _ H) as Hrun.
      cbn zeta in Hrun.
      destruct Hrun as (df & _ & _ & Hdf & Ex & Et & _).
      assert (Edf : df = rectangle_rows)
        by (cbn in Hdf; now injection Hdf as <-).
      subst df. rewrite Ex, Et, Gx, Gt. split; reflexivity. }
    destruct Hlen as [Lt Lx].
    destruct (mask_iff_positive_real_part flat_lib rectangle_file "20250529"
                (Some flat_eqt) out flat_lib_hull_consistent H 0 0)
      as (c & m & Hc & Hmc & Hone & _ & _ & _
          & df & f & xk & ti & Hdf & Hf & _ & _ & Hre).
    + rewrite Lt. lia.
    + rewrite Lx. lia.
    + assert (Edf : df = rectangle_rows)
        by (cbn in Hdf; now injection Hdf as <-).
      subst df. cbn zeta in Hf. rewrite rectangle_lm, rectangle_tn in Hf.
      cbn in Hf. injection Hf as <-. cbn in Hre.
      exists c. split; [exact Hc|]. split; [exact Hre|].
      rewrite Hmc. f_equal. apply Hone. rewrite Hre. cbn. now fv_dec.
Defined.

(** ** Fields with too few points to fit *)

Lemma valid_points_all_nan (lm tn field : list fval) :
  Forall (fun v => v = NaN) field -> valid_points lm tn field = [].
Proof.
  unfold valid_points. generalize (combine lm tn) as ps. intros ps.
  revert field. induction ps as [|p ps IH]; intros [|v field] Hall; cbn;
    trivial.
  inversion Hall as [|? ? Hv Hrest]; subst. cbn.
  rewrite andb_false_r. now apply IH.
Qed.

(** The guarded sibling: the fill of the volatilities with no valid triple
    leaves the column as it is and raises nothing. *)
Lemma fill_skipped_without_points (lib : SciPy) (lm tn iv : list fval) :
  valid_points lm tn iv = [] -> fill_missing_iv lib lm tn iv = Ok iv.
Proof. intros Hnone. unfold fill_missing_iv. now rewrite Hnone. Qed.

(** C4 does not hold of the code: the interpolation of a field onto the grid
    has no guard and no handler.  Whatever the file and the library, when the
    interpolator raises on the valid points of one of the price, the return
    proxy, the open interest, the entropy, the volatility shock, the open gap
    or the event flag, the run of the builder ends with an exception and
    produces no container; the field is not skipped. *)
Theorem thin_field_aborts_the_run :
  forall (lib : SciPy) (opt_file : OptFile) (expiry : string)
         (eqt_file : option (list EqtRow)) (df : list Row)
         (field : list fval) (e : exn),
    align_spot (load_and_clean (opt_rows opt_file)) eqt_file = Ok df ->
    In field [map (fun r : Row => LTP r) df; ImPsi_of df;
              map (fun r : Row => OpenInterest r) df; Entropy_of df;
              VolShock_of df; OpenGap_of df; EventDay_of df] ->
    (let points :=
       valid_points (log_moneyness_of df)
         (t_normalized_of (map (fun r : Row => DTE r) df)) field in
     CloughTocher2DInterpolator lib (map fst points) (map snd points)
     = Raise e) ->
    exists e' : exn,
      create_options_mat lib opt_file expiry eqt_file = Raise e'.
Proof.
  intros lib opt_file expiry eqt_file df field e Hdf Hin Hfit.
  cbn zeta in Hfit.
  destruct (create_options_mat lib opt_file expiry eqt_file)
    as [out|e'] eqn:Hrun; [exfalso|eauto].
  apply create_options_mat_fields in Hrun.
  destruct Hrun as (df' & IV & uu_re & uu_im & f_oi & f_delta & f_entropy
                    & f_shock & f_gap & f_event & f_iv & H).
  cbn zeta in H.
  destruct H as (Hdf' & _ & Hre & Him & Hoi & Hent & Hshock & Hgap & Hevent
                 & _).
  rewrite Hdf in Hdf'. injection Hdf' as <-.
  cbn [In] in Hin.
  destruct Hin as [<-|[<-|[<-|[<-|[<-|[<-|[<-|[]]]]]]]].
  - apply interpolate_Ok in Hre. destruct Hre as [f [Hf _]]. congruence.
  - apply interpolate_Ok in Him. destruct Him as [f [Hf _]]. congruence.
  - apply interpolate_Ok in Hoi. destruct Hoi as [f [Hf _]]. congruence.
  - apply interpolate_Ok in Hent. destruct Hent as [f [Hf _]]. congruence.
  - apply interpolate_Ok in Hshock. destruct Hshock as [f [Hf _]]. congruence.
  - apply interpolate_Ok in Hgap. destruct Hgap as [f [Hf _]]. congruence.
  - apply interpolate_Ok in Hevent. destruct Hevent as [f [Hf _]]. congruence.
Qed.

Lemma thin_field_aborts_the_run_witness :
  (exists e' : exn,
     create_options_mat sample_lib thin_oi_file "20250529" (Some flat_eqt)
     = Raise e')
  /\ valid_points (log_moneyness_of thin_oi_rows)
       (t_normalized_of (map (fun r : Row => DTE r) thin_oi_rows))
       (map (fun r : Row => OpenInterest r) thin_oi_rows) = []
  /\ length (valid_points (log_moneyness_of thin_oi_rows)
               (t_normalized_of (map (fun r : Row => DTE r) thin_oi_rows))
               (map (fun r : Row => LTP r) thin_oi_rows)) = 4%nat.
Proof.
  assert (Hnone : valid_points (log_moneyness_of thin_oi_rows)
            (t_normalized_of (map (fun r : Row => DTE r) thin_oi_rows))
            (map (fun r : Row => OpenInterest r) thin_oi_rows) = []).
  { apply valid_points_all_nan. cbn. repeat constructor. }
  split; [|split].
  - apply (thin_field_aborts_the_run sample_lib thin_oi_file "20250529"
             (Some flat_eqt) thin_oi_rows
             (map (fun r : Row => OpenInterest r) thin_oi_rows) ValueError).
    + reflexivity.
    + cbn [In]. right. right. left. reflexivity.
    + cbn zeta. rewrite Hnone. reflexivity.
  - exact Hnone.
  - unfold valid_points, log_moneyness_of, t_normalized_of, thin_oi_rows.
    do 3 (cbn; fv_dec). reflexivity.
Defined.

(* ================================================================== *)
(** * The round trip through the solver *)

(** ** Bisection meets the contract of the root finder *)

Lemma zero_between (g : R -> R) (a b : R) :
  (forall s, a <= s <= b -> continuity_pt g s) ->
  a <= b -> g a * g b <= 0 ->
  exists z, a <= z <= b /\ g z = 0.
Proof.
  intros Hc Hab Hs.
  destruct (Req_dec (g a) 0) as [Ha|Ha]; [exists a; split; [lra|trivial]|].
  destruct (Req_dec (g b) 0) as [Hb|Hb]; [exists b; split; [lra|trivial]|].
  assert (Hlt : a < b).
  { destruct Hab as [Hab|Hab]; [assumption|]. subst b. exfalso. nra. }
  destruct (Rlt_dec (g a) 0) as [Hneg|Hpos].
  - assert (0 < g b) by nra.
    destruct (IVT_interv g a b Hc Hlt Hneg H) as [z [Hz Hgz]]. eauto.
  - assert (Hga : 0 < g a) by lra. assert (Hgb : g b < 0) by nra.
    assert (Hc' : forall s, a <= s <= b -> continuity_pt (- g)%F s)
      by (intros s Hs'; apply continuity_pt_opp; auto).
    destruct (IVT_interv (- g)%F a b Hc' Hlt) as [z [Hz Hgz]].
    + unfold opp_fct. lra.
    + unfold opp_fct. lra.
    + exists z. split; [assumption|]. unfold opp_fct in Hgz. lra.
Qed.

Lemma bisect_spec (f : fval -> fval) (g : R -> R) (n : nat) :
  forall a b : R,
    a <= b ->
    (forall s, a <= s <= b -> f (Num s) = Num (g s)) ->
    (forall s, a <= s <= b -> continuity_pt g s) ->
    g a * g b <= 0 ->
    exists z, a <= z <= b /\ g z = 0
              /\ Rabs (bisect f a b n - z) <= (b - a) / 2 ^ n.
Proof.
  induction n as [|n IH]; intros a b Hab Hf Hc Hs.
  - destruct (zero_between g a b Hc Hab Hs) as [z [Hz Hgz]].
    exists z. split; [assumption|]. split; [assumption|].
    cbn. unfold Rabs. destruct (Rcase_abs _); lra.
  - cbn [bisect]. cbv zeta.
    assert (Hm : a <= (a + b) / 2 <= b) by lra.
    rewrite (Hf a) by lra. rewrite (Hf ((a + b) / 2)) by lra.
    assert (Hpow : 0 < 2 ^ n) by (apply pow_lt; lra).
    destruct (Rle_dec (g a * g ((a + b) / 2)) 0) as [Hl|Hr].
    + destruct (IH a ((a + b) / 2)) as [z [Hz [Hgz Hb]]]; try lra.
      * intros s Hs'. apply Hf. lra.
      * intros s Hs'. apply Hc. lra.
      * exists z. split; [lra|]. split; [assumption|].
        eapply Rle_trans; [exact Hb|]. cbn [pow].
        right. field. lra.
    + destruct (IH ((a + b) / 2) b) as [z [Hz [Hgz Hb]]]; try lra.
      * intros s Hs'. apply Hf. lra.
      * intros s Hs'. apply Hc. lra.
      * nra.
      * exists z. split; [lra|]. split; [assumption|].
        eapply Rle_trans; [exact Hb|]. cbn [pow].
        right. field. lra.
Qed.

Lemma root_tol_reached : (sigma_hi - sigma_lo) / 2 ^ 100 <= root_tol.
Proof.
  unfold sigma_hi, sigma_lo, root_tol.
  assert (H10 : 1000 <= 2 ^ 10) by (cbn; lra).
  assert (H100 : 2 ^ 100 = (2 ^ 10) ^ 10) by (rewrite <- pow_mult; reflexivity).
  assert (Hbig : 1000 ^ 10 <= (2 ^ 10) ^ 10) by (apply pow_incr; lra).
  assert (H1000 : 1000 ^ 10 = 1000000000000000000000000000000) by (cbn; lra).
  rewrite H100.
  apply Rmult_le_reg_r with ((2 ^ 10) ^ 10); [lra|].
  unfold Rdiv. rewrite Rmult_assoc, Rinv_l by lra. lra.
Qed.

Lemma bisect_lib_contract : brentq_contract bisect_lib.
Proof.
  intros f g Hf Hc Hs.
  assert (Hlo : sigma_lo <= sigma_lo <= sigma_hi)
    by (unfold sigma_lo, sigma_hi; lra).
  assert (Hhi : sigma_lo <= sigma_hi <= sigma_hi)
    by (unfold sigma_lo, sigma_hi; lra).
  destruct (bisect_spec f g 100 sigma_lo sigma_hi) as [z [Hz [Hgz Hb]]];
    try assumption; try lra.
  exists (bisect f sigma_lo sigma_hi 100), z.
  split; [|split; [assumption|split; [assumption|]]].
  - cbn [brentq bisect_lib]. rewrite (Hf _ Hlo), (Hf _ Hhi).
    destruct (Rlt_dec 0 (g sigma_lo * g sigma_hi)); [lra|reflexivity].
  - eapply Rle_trans; [exact Hb|]. apply root_tol_reached.
Qed.

(** ** The logistic distribution function *)

Lemma logistic_increasing (x y : R) : x < y -> logistic x < logistic y.
Proof.
  intros Hxy. unfold logistic.
  assert (Hx := exp_pos (- x)). assert (Hy := exp_pos (- y)).
  assert (He : exp (- y) < exp (- x)) by (apply exp_increasing; lra).
  apply Rinv_lt_contravar; [|lra].
  apply Rmult_lt_0_compat; lra.
Qed.

Lemma logistic_continuous : continuity logistic.
Proof.
  intros x. unfold logistic.
  apply (continuity_pt_inv (fun t => 1 + exp (- t))).
  - apply (continuity_pt_plus (fun _ => 1) (fun t => exp (- t))).
    + apply continuity_pt_const. intros a b. reflexivity.
    + apply (continuity_pt_comp (fun t => - t) exp).
      * apply (continuity_pt_opp (fun t => t)).
        apply derivable_continuous_pt, derivable_pt_id.
      * apply derivable_continuous_pt, derivable_pt_exp.
  - assert (H := exp_pos (- x)). lra.
Qed.

(** ** The pricer on numbers *)

Lemma black_scholes_price_on_reals (lib : SciPy) (S K T r sigma : R)
    (side : string) :
  0 < S -> 0 < K -> 0 <= T -> 0 <= sigma ->
  black_scholes_price lib (Num S) (Num K) (Num T) (Num r) (Num sigma) side
  = Num (price_on_reals lib S K T r sigma side).
Proof.
  intros HS HK HT Hs.
  assert (Hq := sqrt_pos T).
  assert (Hden : sigma * sqrt T + eps8 <> 0).
  { assert (0 <= sigma * sqrt T) by (apply Rmult_le_pos; assumption).
    unfold eps8. lra. }
  assert (Hd1 : d1_of (Num S) (Num K) (Num T) (Num r) (Num sigma)
                = Num (d1_on_reals S K T r sigma)).
  { unfold d1_of, d1_on_reals, fsqrt.
    destruct (Rlt_dec T 0) as [Hneg|_]; [lra|].
    rewrite fdiv_Num by lra.
    rewrite flog_Num by (apply Rdiv_lt_0_compat; assumption).
    cbn [fadd fmul]. now rewrite fdiv_Num. }
  unfold black_scholes_price, price_on_reals. cbv zeta. rewrite Hd1.
  unfold fsqrt. destruct (Rlt_dec T 0) as [Hneg|_]; [lra|].
  destruct (String.eqb side CE); cbn; f_equal; lra.
Qed.

Section RoundTrip.

Variable lib : SciPy.
Variables S K T r : R.
Variable side : string.

Hypothesis cdf_increasing : forall x y, x < y -> norm_cdf lib x < norm_cdf lib y.
Hypothesis cdf_continuous : continuity (norm_cdf lib).
Hypothesis S_pos : 0 < S.
Hypothesis K_pos : 0 < K.
Hypothesis T_pos : 0 < T.
Hypothesis near_forward : forward_at_the_money S K T r.

Lemma sqrt_T_pos : 0 < sqrt T.
Proof. now apply sqrt_lt_R0. Qed.

Lemma sqrt_T_sqr : sqrt T * sqrt T = T.
Proof. apply sqrt_sqrt. lra. Qed.

Lemma d1_on_reals_diff (s1 s2 : R) :
  0 <= s1 -> 0 <= s2 ->
  d1_on_reals S K T r s2 - d1_on_reals S K T r s1
  = (s2 - s1)
    * (sqrt T * (- (ln (S / K) + r * T) + s1 * s2 * T / 2
                 + eps8 * (s1 + s2) * sqrt T / 2))
    / ((s1 * sqrt T + eps8) * (s2 * sqrt T + eps8)).
Proof.
  intros H1 H2. unfold d1_on_reals.
  assert (Hq := sqrt_T_pos).
  assert (0 <= s1 * sqrt T) by (apply Rmult_le_pos; lra).
  assert (0 <= s2 * sqrt T) by (apply Rmult_le_pos; lra).
  assert (He : 0 < eps8) by (unfold eps8; lra).
  assert (HT : T = sqrt T * sqrt T) by (symmetry; apply sqrt_T_sqr).
  remember (sqrt T) as q eqn:Eq. clear Eq.
  rewrite HT. field. split; lra.
Qed.

(** Above the low end of the bracket, [d1] increases with the volatility. *)
Lemma d1_on_reals_increasing (s1 s2 : R) :
  sigma_lo <= s1 -> s1 < s2 ->
  d1_on_reals S K T r s1 < d1_on_reals S K T r s2.
Proof.
  intros H1 H12.
  assert (Hlo : 0 < sigma_lo) by (unfold sigma_lo; lra).
  assert (Hq := sqrt_T_pos).
  assert (He : 0 < eps8) by (unfold eps8; lra).
  assert (Hd1 : 0 < s1 * sqrt T + eps8)
    by (assert (0 <= s1 * sqrt T) by (apply Rmult_le_pos; lra); lra).
  assert (Hd2 : 0 < s2 * sqrt T + eps8)
    by (assert (0 <= s2 * sqrt T) by (apply Rmult_le_pos; lra); lra).
  apply Rlt_0_minus. rewrite d1_on_reals_diff by lra.
  apply Rdiv_lt_0_compat; [|now apply Rmult_lt_0_compat].
  apply Rmult_lt_0_compat; [lra|]. apply Rmult_lt_0_compat; [lra|].
  unfold forward_at_the_money in near_forward.
  assert (Hm : ln (S / K) + r * T
               <= sigma_lo * sigma_lo * T / 2 + eps8 * sigma_lo * sqrt T).
  { eapply Rle_trans; [apply Rle_abs|exact near_forward]. }
  assert (H3 : sigma_lo * sigma_lo < s1 * s2) by nra.
  assert (H4 : sigma_lo * sigma_lo * T < s1 * s2 * T)
    by (apply Rmult_lt_compat_r; lra).
  assert (H5 : eps8 * sigma_lo * sqrt T < eps8 * (s1 + s2) * sqrt T / 2).
  { assert (0 < eps8 * sqrt T) by (apply Rmult_lt_0_compat; lra). nra. }
  lra.
Qed.

(** Above the low end of the bracket, [d2] decreases with the volatility. *)
Lemma d2_on_reals_decreasing (s1 s2 : R) :
  sigma_lo <= s1 -> s1 < s2 ->
  d1_on_reals S K T r s2 - s2 * sqrt T < d1_on_reals S K T r s1 - s1 * sqrt T.
Proof.
  intros H1 H12.
  assert (Hlo : 0 < sigma_lo) by (unfold sigma_lo; lra).
  assert (Hq := sqrt_T_pos).
  assert (He : 0 < eps8) by (unfold eps8; lra).
  assert (Hd1 : 0 < s1 * sqrt T + eps8)
    by (assert (0 <= s1 * sqrt T) by (apply Rmult_le_pos; lra); lra).
  assert (Hd2 : 0 < s2 * sqrt T + eps8)
    by (assert (0 <= s2 * sqrt T) by (apply Rmult_le_pos; lra); lra).
  assert (Hprod : 0 < (s1 * sqrt T + eps8) * (s2 * sqrt T + eps8))
    by now apply Rmult_lt_0_compat.
  enough (Hdiff : d1_on_reals S K T r s2 - d1_on_reals S K T r s1
                  < (s2 - s1) * sqrt T) by lra.
  rewrite d1_on_reals_diff by lra.
  unfold forward_at_the_money in near_forward.
  assert (Hm : - (ln (S / K) + r * T)
               <= sigma_lo * sigma_lo * T / 2 + eps8 * sigma_lo * sqrt T).
  { eapply Rle_trans; [|exact near_forward].
    rewrite <- Rabs_Ropp. apply Rle_abs. }
  assert (HD : (s1 * sqrt T + eps8) * (s2 * sqrt T + eps8)
               = s1 * s2 * T + eps8 * (s1 + s2) * sqrt T + eps8 * eps8)
    by (replace (s1 * s2 * T) with (s1 * s2 * (sqrt T * sqrt T))
          by (now rewrite sqrt_T_sqr); ring).
  assert (H4' : 0 < s1 * s2 * T)
    by (apply Rmult_lt_0_compat; [apply Rmult_lt_0_compat|]; lra).
  assert (H6 : 0 < eps8 * (s1 + s2) * sqrt T)
    by (apply Rmult_lt_0_compat; [apply Rmult_lt_0_compat|]; lra).
  assert (H7 : 0 < eps8 * eps8) by (apply Rmult_lt_0_compat; lra).
  assert (H8 : 0 <= sigma_lo * sigma_lo * T / 2 + eps8 * sigma_lo * sqrt T).
  { eapply Rle_trans; [apply Rabs_pos|exact near_forward]. }
  assert (HA : - (ln (S / K) + r * T) + s1 * s2 * T / 2
               + eps8 * (s1 + s2) * sqrt T / 2
               < (s1 * sqrt T + eps8) * (s2 * sqrt T + eps8)).
  { rewrite HD.
    assert (H3 : sigma_lo * sigma_lo < s1 * s2) by nra.
    assert (H4 : sigma_lo * sigma_lo * T < s1 * s2 * T)
      by (apply Rmult_lt_compat_r; lra).
    assert (H5 : eps8 * sigma_lo * sqrt T < eps8 * (s1 + s2) * sqrt T / 2).
    { assert (0 < eps8 * sqrt T) by (apply Rmult_lt_0_compat; lra). nra. }
    lra. }
  apply Rmult_lt_reg_r with ((s1 * sqrt T + eps8) * (s2 * sqrt T + eps8));
    [assumption|].
  unfold Rdiv at 1. rewrite Rmult_assoc, Rinv_l, Rmult_1_r by lra.
  replace ((s2 - s1) * sqrt T * ((s1 * sqrt T + eps8) * (s2 * sqrt T + eps8)))
    with ((s2 - s1)
          * (sqrt T * ((s1 * sqrt T + eps8) * (s2 * sqrt T + eps8))))
    by ring.
  apply Rmult_lt_compat_l; [lra|].
  apply Rmult_lt_compat_l; [lra|]. exact HA.
Qed.

(** For the options at the money of the forward, the price of a call and of
    a put increases strictly with the volatility over the bracket. *)
Lemma price_on_reals_increasing (s1 s2 : R) :
  sigma_lo <= s1 -> s1 < s2 ->
  price_on_reals lib S K T r s1 side < price_on_reals lib S K T r s2 side.
Proof.
  intros H1 H12. unfold price_on_reals. cbv zeta.
  assert (Hd1 := d1_on_reals_increasing s1 s2 H1 H12).
  assert (Hd2 := d2_on_reals_decreasing s1 s2 H1 H12).
  assert (HK : 0 < K * exp (- r * T))
    by (apply Rmult_lt_0_compat; [assumption|apply exp_pos]).
  destruct (String.eqb side CE).
  - assert (A1 := cdf_increasing _ _ Hd1).
    assert (A2 := cdf_increasing _ _ Hd2).
    assert (S * norm_cdf lib (d1_on_reals S K T r s1)
            < S * norm_cdf lib (d1_on_reals S K T r s2))
      by (apply Rmult_lt_compat_l; assumption).
    assert (K * exp (- r * T)
              * norm_cdf lib (d1_on_reals S K T r s2 - s2 * sqrt T)
            < K * exp (- r * T)
              * norm_cdf lib (d1_on_reals S K T r s1 - s1 * sqrt T))
      by (apply Rmult_lt_compat_l; assumption).
    lra.
  - assert (A1 : norm_cdf lib (- d1_on_reals S K T r s2)
                 < norm_cdf lib (- d1_on_reals S K T r s1))
      by (apply cdf_increasing; lra).
    assert (A2 : norm_cdf lib (- (d1_on_reals S K T r s1 - s1 * sqrt T))
                 < norm_cdf lib (- (d1_on_reals S K T r s2 - s2 * sqrt T)))
      by (apply cdf_increasing; lra).
    assert (S * norm_cdf lib (- d1_on_reals S K T r s2)
            < S * norm_cdf lib (- d1_on_reals S K T r s1))
      by (apply Rmult_lt_compat_l; assumption).
    assert (K * exp (- r * T)
              * norm_cdf lib (- (d1_on_reals S K T r s1 - s1 * sqrt T))
            < K * exp (- r * T)
              * norm_cdf lib (- (d1_on_reals S K T r s2 - s2 * sqrt T)))
      by (apply Rmult_lt_compat_l; assumption).
    lra.
Qed.

Lemma d1_on_reals_continuous (s : R) :
  0 <= s -> continuity_pt (fun x => d1_on_reals S K T r x) s.
Proof.
  intros Hs. unfold d1_on_reals.
  assert (Hq := sqrt_T_pos).
  apply (continuity_pt_div
           (fun x => ln (S / K) + (r + 1 / 2 * (x * x)) * T)
           (fun x => x * sqrt T + eps8)).
  - apply derivable_continuous_pt. reg.
  - apply derivable_continuous_pt. reg.
  - assert (0 <= s * sqrt T) by (apply Rmult_le_pos; lra).
    unfold eps8. lra.
Qed.

Lemma price_on_reals_continuous (s : R) :
  0 <= s -> continuity_pt (fun x => price_on_reals lib S K T r x side) s.
Proof.
  intros Hs. unfold price_on_reals. cbv zeta.
  assert (C1 := d1_on_reals_continuous s Hs).
  assert (C2 : continuity_pt
                 (fun x => d1_on_reals S K T r x - x * sqrt T) s).
  { apply (continuity_pt_minus (fun x => d1_on_reals S K T r x)
             (fun x => x * sqrt T)); [exact C1|].
    apply derivable_continuous_pt. reg. }
  assert (N1 : continuity_pt (fun x => - d1_on_reals S K T r x) s)
    by (apply (continuity_pt_opp (fun x => d1_on_reals S K T r x)); exact C1).
  assert (N2 : continuity_pt
                 (fun x => - (d1_on_reals S K T r x - x * sqrt T)) s)
    by (apply (continuity_pt_opp
                 (fun x => d1_on_reals S K T r x - x * sqrt T)); exact C2).
  assert (Comp : forall h : R -> R,
             continuity_pt h s ->
             forall c : R,
               continuity_pt (fun x => c * norm_cdf lib (h x)) s).
  { intros h Hh c.
    apply (continuity_pt_scal (fun x => norm_cdf lib (h x)) c).
    apply (continuity_pt_comp h (norm_cdf lib)); [exact Hh|].
    apply cdf_continuous. }
  destruct (String.eqb side CE).
  - apply (continuity_pt_minus
             (fun x => S * norm_cdf lib (d1_on_reals S K T r x))
             (fun x => K * exp (- r * T)
                       * norm_cdf lib (d1_on_reals S K T r x - x * sqrt T))).
    + apply (Comp _ C1).
    + apply (Comp _ C2).
  - apply (continuity_pt_minus
             (fun x => K * exp (- r * T)
                       * norm_cdf lib
                           (- (d1_on_reals S K T r x - x * sqrt T)))
             (fun x => S * norm_cdf lib (- d1_on_reals S K T r x))).
    + apply (Comp _ N2).
    + apply (Comp _ N1).
Qed.

End RoundTrip.



(** ** Away from the forward *)

Lemma div_lt_cross (a b c d : R) :
  0 < b -> 0 < d -> a * d < c * b -> a / b < c / d.
Proof.
  intros Hb Hd H.
  apply Rmult_lt_reg_r with (b * d); [now apply Rmult_lt_0_compat|].
  replace (a / b * (b * d)) with (a * d) by (field; lra).
  replace (c / d * (b * d)) with (c * b) by (field; lra).
  exact H.
Qed.

Lemma algebraic_cdf_increasing (x y : R) :
  x < y -> algebraic_cdf x < algebraic_cdf y.
Proof.
  intros Hxy. unfold algebraic_cdf.
  apply Rplus_lt_compat_l.
  unfold Rabs. destruct (Rcase_abs x), (Rcase_abs y);
    apply div_lt_cross; nra.
Qed.

Lemma algebraic_cdf_continuous : continuity algebraic_cdf.
Proof.
  intros x. unfold algebraic_cdf.
  apply (continuity_pt_plus (fun _ => 1 / 2)
           (fun t => t / (2 * (1 + Rabs t)))).
  - apply continuity_pt_const. intros a b. reflexivity.
  - apply (continuity_pt_div (fun t => t) (fun t => 2 * (1 + Rabs t))).
    + apply derivable_continuous_pt, derivable_pt_id.
    + apply (continuity_pt_scal (fun t => 1 + Rabs t) 2).
      apply (continuity_pt_plus (fun _ => 1) Rabs).
      * apply continuity_pt_const. intros a b. reflexivity.
      * apply Rcontinuity_abs.
    + assert (H := Rabs_pos x). lra.
Qed.

Lemma algebraic_lib_contract : brentq_contract algebraic_lib.
Proof. exact bisect_lib_contract. Qed.

Lemma algebraic_cdf_nonneg (x : R) :
  0 <= x -> algebraic_cdf x = 1 / 2 + x / (2 * (1 + x)).
Proof. intros Hx. unfold algebraic_cdf. now rewrite Rabs_pos_eq. Qed.

Lemma algebraic_cdf_below_1 (x : R) : algebraic_cdf x < 1.
Proof.
  unfold algebraic_cdf.
  assert (H : x / (2 * (1 + Rabs x)) < 1 / 2).
  { apply div_lt_cross; try lra.
    - assert (H := Rabs_pos x). lra.
    - assert (H := Rle_abs x). lra. }
  lra.
Qed.

Lemma algebraic_cdf_monotone (x y : R) :
  x <= y -> algebraic_cdf x <= algebraic_cdf y.
Proof.
  intros [H| ->]; [left; now apply algebraic_cdf_increasing|right; reflexivity].
Qed.

Lemma ln_2_bounds : 1 / 2 < ln (2 / 1) < 1.
Proof.
  replace (2 / 1) with 2 by lra. split.
  - assert (H := ln_lt_2). lra.
  - rewrite <- (ln_exp 1). apply ln_increasing; [lra|].
    assert (H := exp_ineq1 1). lra.
Qed.

Lemma le_div_cross (a b c : R) : 0 < b -> a * b <= c -> a <= c / b.
Proof.
  intros Hb H. apply Rmult_le_reg_r with b; [assumption|].
  replace (c / b * b) with c by (field; lra). exact H.
Qed.

Lemma div_le_cross (a b c : R) : 0 < b -> c <= a * b -> c / b <= a.
Proof.
  intros Hb H. apply Rmult_le_reg_r with b; [assumption|].
  replace (c / b * b) with c by (field; lra). exact H.
Qed.

(** The call price at spot 2, strike 1, one year and a zero rate. *)
Lemma off_forward_price (s : R) :
  price_on_reals algebraic_lib 2 1 1 0 s CE
  = 2 * algebraic_cdf ((ln (2 / 1) + s * s / 2) / (s + eps8))
    - algebraic_cdf ((ln (2 / 1) + s * s / 2) / (s + eps8) - s).
Proof.
  unfold price_on_reals, d1_on_reals. cbv zeta.
  change (String.eqb CE CE) with true. cbv iota.
  rewrite sqrt_1. replace (- 0 * 1) with 0 by ring. rewrite exp_0.
  cbn [norm_cdf algebraic_lib].
  replace ((ln (2 / 1) + (0 + 1 / 2 * (s * s)) * 1) / (s * 1 + eps8))
    with ((ln (2 / 1) + s * s / 2) / (s + eps8))
    by (f_equal; lra).
  rewrite !Rmult_1_r, Rmult_1_l. reflexivity.
Qed.

Lemma off_forward_price_low :
  998 / 1000 < price_on_reals algebraic_lib 2 1 1 0 (1 / 1000) CE < 11 / 10.
Proof.
  rewrite off_forward_price. destruct ln_2_bounds as [L1 L2].
  set (d := (ln (2 / 1) + 1 / 1000 * (1 / 1000) / 2) / (1 / 1000 + eps8)).
  assert (Hd : 499 <= d).
  { apply le_div_cross; unfold eps8; lra. }
  assert (H1 := algebraic_cdf_monotone _ _ Hd).
  rewrite (algebraic_cdf_nonneg 499) in H1 by lra.
  assert (H2 := algebraic_cdf_below_1 (d - 1 / 1000)).
  assert (H3 := algebraic_cdf_below_1 d).
  assert (H4 : algebraic_cdf 498 <= algebraic_cdf (d - 1 / 1000))
    by (apply algebraic_cdf_monotone; lra).
  rewrite (algebraic_cdf_nonneg 498) in H4 by lra.
  lra.
Qed.

Lemma off_forward_price_dip :
  price_on_reals algebraic_lib 2 1 1 0 (1 / 5) CE < 998 / 1000.
Proof.
  rewrite off_forward_price. destruct ln_2_bounds as [L1 L2].
  set (d := (ln (2 / 1) + 1 / 5 * (1 / 5) / 2) / (1 / 5 + eps8)).
  assert (Hd1 : d <= 51 / 10).
  { apply div_le_cross; unfold eps8; lra. }
  assert (Hd2 : 25 / 10 <= d).
  { apply le_div_cross; unfold eps8; lra. }
  assert (H1 := algebraic_cdf_monotone _ _ Hd1).
  rewrite (algebraic_cdf_nonneg (51 / 10)) in H1 by lra.
  assert (H2 : algebraic_cdf (23 / 10) <= algebraic_cdf (d - 1 / 5))
    by (apply algebraic_cdf_monotone; lra).
  rewrite (algebraic_cdf_nonneg (23 / 10)) in H2 by lra.
  lra.
Qed.

Lemma off_forward_price_high :
  14 / 10 < price_on_reals algebraic_lib 2 1 1 0 4 CE.
Proof.
  rewrite off_forward_price. destruct ln_2_bounds as [L1 L2].
  set (d := (ln (2 / 1) + 4 * 4 / 2) / (4 + eps8)).
  assert (Hd1 : d <= 9 / 4).
  { apply div_le_cross; unfold eps8; lra. }
  assert (Hd2 : 212 / 100 <= d).
  { apply le_div_cross; unfold eps8; lra. }
  assert (H1 := algebraic_cdf_monotone _ _ Hd2).
  rewrite (algebraic_cdf_nonneg (212 / 100)) in H1 by lra.
  assert (H2 : algebraic_cdf (d - 4) <= algebraic_cdf (- (7 / 4)))
    by (apply algebraic_cdf_monotone; lra).
  assert (H3 : algebraic_cdf (- (7 / 4)) = 1 / 2 - 7 / 22).
  { unfold algebraic_cdf. rewrite Rabs_Ropp, Rabs_pos_eq by lra. field. }
  lra.
Qed.

(** The hypotheses made on the library do not give the round trip away
    from the forward, even for a positive time: at spot 2, strike 1, one
    year and a zero rate, with the distribution function [algebraic_cdf]
    (continuous, strictly increasing), the call price at volatility 0.001 is
    met again at a volatility between 0.2 and 4, so no root finder makes
    the solver return both. *)
Lemma round_trip_fails_off_the_forward :
  exists sa sb : R,
    sigma_lo < sa < sigma_hi /\ sigma_lo < sb < sigma_hi
    /\ forall lib : SciPy,
         (forall x, norm_cdf lib x = algebraic_cdf x) ->
         ~ (round_trip_at lib 2 1 1 0 sa CE
            /\ round_trip_at lib 2 1 1 0 sb CE).
Proof.
  assert (Hlow := off_forward_price_low).
  assert (Hdip := off_forward_price_dip).
  assert (Hhigh := off_forward_price_high).
  destruct (zero_between
              (fun s => price_on_reals algebraic_lib 2 1 1 0 s CE
                        - price_on_reals algebraic_lib 2 1 1 0 (1 / 1000) CE)
              (1 / 5) 4) as [z [Hz Hgz]].
  - intros s Hs.
    apply (continuity_pt_minus
             (fun x => price_on_reals algebraic_lib 2 1 1 0 x CE)
             (fun _ => price_on_reals algebraic_lib 2 1 1 0 (1 / 1000) CE)).
    + apply price_on_reals_continuous; try lra.
      exact algebraic_cdf_continuous.
    + apply continuity_pt_const. intros a b. reflexivity.
  - lra.
  - cbv beta.
    apply Rlt_le, Rmult_neg_pos; lra.
  - exists (1 / 1000), z. unfold sigma_lo, sigma_hi.
    split; [lra|]. split; [lra|].
    intros lib Hcdf [[v1 [E1 B1]] [v2 [E2 B2]]].
    assert (Hprice : forall s,
               price_on_reals lib 2 1 1 0 s CE
               = price_on_reals algebraic_lib 2 1 1 0 s CE).
    { intros s. unfold price_on_reals. cbv zeta.
      cbn [norm_cdf algebraic_lib]. now rewrite !Hcdf. }
    rewrite black_scholes_price_on_reals, Hprice in E1, E2 by lra.
    replace (price_on_reals algebraic_lib 2 1 1 0 z CE)
      with (price_on_reals algebraic_lib 2 1 1 0 (1 / 1000) CE) in E2 by lra.
    rewrite E1 in E2. apply Num_inj in E2. subst v2.
    unfold Rabs in B1, B2.
    destruct (Rcase_abs (v1 - 1 / 1000)), (Rcase_abs (v1 - z)); lra.
Qed.
